(** * pyTigerGraph user-defined expression functions

    A shallow embedding of the three headers of the repository:

    - [cicd/graph_script/ExprFunctions.hpp] (namespace [UDIMPL]:
      [str_to_int], [float_to_int], [to_string], [get_minutes],
      [is_contains]);
    - [tests/fixtures/ExprFunctions.hpp] (namespace [UDIMPL]: [add_3]);
    - [tests/fixtures/ExprUtil.hpp] (the constants [BASE] and [MOD]).

    Conventions of the embedding.

    - [int] is a 32-bit two's complement integer: a [Z] kept in
      [INT_MIN .. INT_MAX] by [Int.wrap], written at every arithmetic
      operation of the source.
    - [std::size_t] is a 64-bit unsigned integer: a [Z] kept in
      [0 .. 2^64 - 1] by [SizeT.wrap]; [npos] is its largest value.
    - [std::string] is a list of 8-bit characters.  The members used by the
      source ([empty], [find], [substr], [operator==], [c_str]) are
      embedded in [StdString] after their description in the C++ standard;
      [substr] throws [std::out_of_range], which is an [outcome].
    - [atoi] is embedded in [Libc] after the C standard, in the "C" locale;
      outside the range of [long] it follows glibc
      ([(int) strtol (nptr, NULL, 10)]).
    - [float_to_int] and [to_string] work on floating-point numbers and on
      [sprintf]'s [%g]; only their signatures are embedded. *)

From Stdlib Require Import ZArith List Ascii Bool Lia.
From Stdlib Require String.
From Stdlib Require Import Znumtheory Zpow_facts Zmod.
Import ListNotations String.StringSyntax.

Delimit Scope string_scope with string.
Local Open Scope Z_scope.

(** ** Machine integers *)

Module Int.
(** [int]: 32 bits, two's complement. *)
Definition bits : Z := 32.
Definition modulus : Z := 2 ^ bits.
Definition INT_MAX : Z := 2 ^ (bits - 1) - 1.
Definition INT_MIN : Z := - 2 ^ (bits - 1).

Definition in_range (z : Z) : Prop := INT_MIN <= z <= INT_MAX.

(** The representative of [z] modulo [2^32] in [INT_MIN .. INT_MAX]. *)
Definition wrap (z : Z) : Z := (z + 2 ^ (bits - 1)) mod modulus - 2 ^ (bits - 1).

Definition add (a b : Z) : Z := wrap (a + b).
Definition mul (a b : Z) : Z := wrap (a * b).
End Int.

Module Long.
(** [long] on LP64: 64 bits, two's complement. *)
Definition LONG_MAX : Z := 2 ^ 63 - 1.
Definition LONG_MIN : Z := - 2 ^ 63.

(** [strtol] saturates outside the range of [long]. *)
Definition clamp (z : Z) : Z := Z.max LONG_MIN (Z.min LONG_MAX z).
End Long.

Module SizeT.
(** [std::size_t]: 64 bits, unsigned. *)
Definition bits : Z := 64.
Definition modulus : Z := 2 ^ bits.
Definition wrap (z : Z) : Z := z mod modulus.
Definition add (a b : Z) : Z := wrap (a + b).
Definition sub (a b : Z) : Z := wrap (a - b).
End SizeT.

(** ** Results of calls that may throw *)

Inductive outcome (A : Type) : Type :=
| Returns (a : A)          (* normal return *)
| Throws_out_of_range      (* std::out_of_range left the function *)
| Out_of_fuel.             (* the model's loop bound was reached *)

Arguments Returns {A} a.
Arguments Throws_out_of_range {A}.
Arguments Out_of_fuel {A}.

Definition bind {A B : Type} (m : outcome A) (k : A -> outcome B) : outcome B :=
  match m with
  | Returns a => k a
  | Throws_out_of_range => Throws_out_of_range
  | Out_of_fuel => Out_of_fuel
  end.

Notation "'let*' x ':=' m 'in' k" := (bind m (fun x => k))
  (at level 10, x name, m at level 100, k at level 200).

(** ** [std::string] *)

Module StdString.
Definition string : Type := list ascii.

(** String literals of the source. *)
Definition lit (s : String.string) : string := String.list_ascii_of_string s.
Arguments lit s%_string.

Definition npos : Z := SizeT.modulus - 1.

Definition size (s : string) : Z := Z.of_nat (length s).

Definition empty (s : string) : bool :=
  match s with [] => true | _ :: _ => false end.

(** [operator==] *)
Fixpoint eqb (s t : string) : bool :=
  match s, t with
  | [], [] => true
  | c :: s', d :: t' => Ascii.eqb c d && eqb s' t'
  | _, _ => false
  end.

(** [needle] is an initial part of [s]. *)
Fixpoint starts_with (needle s : string) : bool :=
  match needle, s with
  | [], _ => true
  | c :: needle', d :: s' => Ascii.eqb c d && starts_with needle' s'
  | _ :: _, [] => false
  end.

(** The scan of [find]: [s] is what remains of the string from index [i]
    on; the lowest index at which [needle] starts, or [npos]. *)
Fixpoint find_from (needle s : string) (i : Z) : Z :=
  if starts_with needle s then i
  else match s with
       | [] => npos
       | _ :: s' => find_from needle s' (i + 1)
       end.

(** [str.find(needle, pos)] *)
Definition find (str needle : string) (pos : Z) : Z :=
  if size str <? pos then npos
  else find_from needle (skipn (Z.to_nat pos) str) pos.

(** [str.substr(pos, n)]: throws when [pos > size()], else the
    [min(n, size() - pos)] characters from [pos] on. *)
Definition substr (str : string) (pos n : Z) : outcome string :=
  if size str <? pos then Throws_out_of_range
  else Returns (firstn (Z.to_nat (Z.min n (size str - pos)))
                       (skipn (Z.to_nat pos) str)).

(** [str.c_str()]: the characters a C function sees, up to the first
    NUL. *)
Fixpoint c_str (s : string) : string :=
  match s with
  | [] => []
  | c :: s' => if Ascii.eqb c zero then [] else c :: c_str s'
  end.
End StdString.

(** ** The C library *)

Module Libc.
Import StdString.

Definition code (c : ascii) : Z := Z.of_N (N_of_ascii c).

(** [isspace] in the "C" locale: space, \t, \n, \v, \f, \r. *)
Definition isspace (c : ascii) : bool :=
  (code c =? 32) || ((9 <=? code c) && (code c <=? 13)).

Definition isdigit (c : ascii) : bool :=
  (48 <=? code c) && (code c <=? 57).

Definition digit (c : ascii) : Z := code c - 48.

Fixpoint skip_space (s : string) : string :=
  match s with
  | [] => []
  | c :: s' => if isspace c then skip_space s' else s
  end.

(** The value of the longest run of digits [s] starts with, after the
    digits already read into [acc]. *)
Fixpoint read_digits (acc : Z) (s : string) : Z :=
  match s with
  | [] => acc
  | c :: s' => if isdigit c then read_digits (10 * acc + digit c) s' else acc
  end.

(** [strtol(nptr, NULL, 10)] *)
Definition strtol (nptr : string) : Z :=
  match skip_space nptr with
  | c :: s' =>
      if Ascii.eqb c "-" then Long.clamp (- read_digits 0 s')
      else if Ascii.eqb c "+" then Long.clamp (read_digits 0 s')
      else Long.clamp (read_digits 0 (c :: s'))
  | [] => 0
  end.

(** [atoi(nptr)] *)
Definition atoi (nptr : string) : Z := Int.wrap (strtol nptr).
End Libc.

(** ** [cicd/graph_script/ExprFunctions.hpp] *)

Module UDIMPL.
Import StdString.

Local Open Scope string_scope.

(** [inline int str_to_int (string str)] *)
Definition str_to_int (str : string) : Z := Libc.atoi (c_str str).

Definition delim : string := lit ", ".

(** The body of the [while] loop of [get_minutes] once [time_str] is
    known: the segment is cut at its first space into a number and a
    unit, and [total] is updated. *)
Definition account_segment (total : Z) (time_str : string) : outcome Z :=
  let space_ch := find time_str (lit " ") 0 in
  let* num_str := substr time_str 0 space_ch in
  let* unit_str := substr time_str (SizeT.add space_ch 1) npos in
  let num_t := str_to_int num_str in
  if eqb unit_str (lit "days") then
    Returns (Int.add total (Int.mul (Int.mul num_t 60) 24))
  else if eqb unit_str (lit "hours") then
    Returns (Int.add total (Int.mul num_t 60))
  else if eqb unit_str (lit "minutes") then
    Returns (Int.add total num_t)
  else Returns total.

(** The body of the [while] loop up to the update of [total]. *)
Definition add_segment (str : string) (total cur prev : Z) : outcome Z :=
  let* time_str := substr str prev (SizeT.sub cur prev) in
  account_segment total time_str.

(** [while (cur != string::npos) { ... }], at most [fuel] times round. *)
Fixpoint get_minutes_loop (fuel : nat) (str : string) (total cur prev : Z)
  : outcome Z :=
  if cur =? npos then Returns total
  else match fuel with
       | O => Out_of_fuel
       | S fuel' =>
           let* total' := add_segment str total cur prev in
           let prev' := SizeT.add cur 2 in
           let cur' := find str delim prev' in
           get_minutes_loop fuel' str total' cur' prev'
       end.

(** [inline int get_minutes (string str)].  Every round of the loop moves
    [prev] forward, so [length str] rounds are enough. *)
Definition get_minutes (str : string) : outcome Z :=
  if empty str then Returns 0
  else get_minutes_loop (length str) str 0 (find str delim 0) 0.

(** [inline bool is_contains (string str1, string str2)] *)
Definition is_contains (str1 str2 : string) : bool :=
  negb (find str1 str2 0 =? npos).
End UDIMPL.


(** ** [tests/fixtures/ExprUtil.hpp] *)

Module ExprUtil.
(** [const uint64_t BASE = 1ULL << 63;] *)
Definition BASE : Z := Z.shiftl 1 63 mod 2 ^ 64.

(** [const int64_t MOD = 9223372036854775783;] *)
Definition MOD : Z := 9223372036854775783.
End ExprUtil.

(** ** [tests/fixtures/ExprFunctions.hpp] *)

Module TestFixture.
(** [inline int add_3(int num)] *)
Definition add_3 (num : Z) : Z := Int.add num 3.
End TestFixture.

(** ** Signatures

    The types that the three headers write in declarations, and the
    signature of every function they define, in the order of the source. *)

Module Signature.
Inductive ctype : Type :=
| t_int | t_float | t_double | t_bool
| t_string                        (* UDIMPL::string *)
| t_accum (name : String.string)  (* an accumulator of the engine *)
| t_size_t                        (* std::size_t *)
| t_char_array (n : nat)          (* char [n] *)
| t_uint64_t | t_int64_t.

Record udf : Type := {
  name : String.string;
  params : list ctype;
  ret : ctype
}.

(** "Supported type of return value and parameters" of the header
    comment of [ExprFunctions.hpp]. *)
Definition supported (t : ctype) : bool :=
  match t with
  | t_int | t_float | t_double | t_bool | t_string | t_accum _ => true
  | t_size_t | t_char_array _ | t_uint64_t | t_int64_t => false
  end.

Definition conforms (f : udf) : bool :=
  supported (ret f) && forallb supported (params f).

Local Open Scope string_scope.

(** [cicd/graph_script/ExprFunctions.hpp] *)
Definition production : list udf :=
  [ {| name := "str_to_int";   params := [t_string];           ret := t_int |};
    {| name := "float_to_int"; params := [t_float];            ret := t_int |};
    {| name := "to_string";    params := [t_double];           ret := t_string |};
    {| name := "get_minutes";  params := [t_string];           ret := t_int |};
    {| name := "is_contains";  params := [t_string; t_string]; ret := t_bool |} ].

(** [tests/fixtures/ExprFunctions.hpp] *)
Definition fixture : list udf :=
  [ {| name := "add_3"; params := [t_int]; ret := t_int |} ].
End Signature.

Import StdString.

(** ** Vocabulary of the statements *)

Module Numeral.
(** Decimal numerals: an optional sign and at least one digit. *)
Definition is_numeral (s : string) : bool :=
  match s with
  | [] => false
  | c :: ds =>
      if Ascii.eqb c "-" || Ascii.eqb c "+"
      then negb (empty ds) && forallb Libc.isdigit ds
      else forallb Libc.isdigit s
  end.

(** The number a run of digits denotes, by the weight of each position. *)
Fixpoint decimal (ds : string) : Z :=
  match ds with
  | [] => 0
  | d :: ds' => Libc.digit d * 10 ^ size ds' + decimal ds'
  end.

Definition value (s : string) : Z :=
  match s with
  | [] => 0
  | c :: ds =>
      if Ascii.eqb c "-" then - decimal ds
      else if Ascii.eqb c "+" then decimal ds
      else decimal s
  end.

(** The characters of numerals. *)
Definition numeral_char (c : ascii) : bool :=
  Libc.isdigit c || Ascii.eqb c "-" || Ascii.eqb c "+".

(** [s] starts, after white space, with an optional sign and a digit. *)
Definition numeric_prefix (s : string) : Prop :=
  exists ws sgn d rest,
    s = ws ++ sgn ++ d :: rest /\
    forallb Libc.isspace ws = true /\
    (sgn = [] \/ sgn = lit "+" \/ sgn = lit "-") /\
    Libc.isdigit d = true.
End Numeral.

Module Duration.
Inductive time_unit : Type := days | hours | minutes.

Definition unit_name (u : time_unit) : string :=
  match u with
  | days => lit "days"
  | hours => lit "hours"
  | minutes => lit "minutes"
  end.

Definition minutes_per (u : time_unit) : Z :=
  match u with
  | days => 1440
  | hours => 60
  | minutes => 1
  end.

(** A segment ["<N> <unit>"]: the text of [N] and the unit. *)
Definition segment : Type := (string * time_unit)%type.

Definition segment_text (sg : segment) : string :=
  fst sg ++ lit " " ++ unit_name (snd sg).

Definition well_formed (sg : segment) : Prop :=
  Numeral.is_numeral (fst sg) = true /\ Int.in_range (Numeral.value (fst sg)).

Definition segment_minutes (sg : segment) : Z :=
  Numeral.value (fst sg) * minutes_per (snd sg).

Definition total_minutes (l : list segment) : Z :=
  fold_right (fun sg acc => segment_minutes sg + acc) 0 l.

(** The segments joined by [", "], as the claim has it. *)
Fixpoint joined (l : list segment) : string :=
  match l with
  | [] => []
  | [sg] => segment_text sg
  | sg :: l' => segment_text sg ++ UDIMPL.delim ++ joined l'
  end.

(** Every segment followed by [", "]. *)
Fixpoint terminated (l : list segment) : string :=
  match l with
  | [] => []
  | sg :: l' => segment_text sg ++ UDIMPL.delim ++ terminated l'
  end.

(** Two durations used as examples: "2 days", "3 hours", "30 minutes",
    and one whose total exceeds [INT_MAX]. *)
Definition example_duration : list segment :=
  [(lit "2", days); (lit "3", hours); (lit "30", minutes)].

Definition long_duration : list segment :=
  [(lit "3000000", days); (lit "0", minutes)].
End Duration.

Module Scan.
(** The list view of the loop of [get_minutes]: the pieces of a string
    that are followed by [", "], from left to right. *)
Definition is_delim (c d : ascii) : bool := Ascii.eqb c "," && Ascii.eqb d " ".

Definition push (c : ascii) (l : list string) : list string :=
  match l with
  | [] => []
  | x :: l' => (c :: x) :: l'
  end.

Fixpoint pieces (s : string) : list string :=
  match s with
  | [] => []
  | c :: s' =>
      match s' with
      | [] => []
      | d :: r => if is_delim c d then [] :: pieces r else push c (pieces s')
      end
  end.

(** What a piece adds to [total]: its text up to the first space read as
    a number, the text after that space (the whole piece when it has no
    space) compared with the three unit names. *)
Fixpoint before_space (s : string) : string :=
  match s with
  | [] => []
  | c :: s' => if Ascii.eqb c " " then [] else c :: before_space s'
  end.

Fixpoint after_space (s : string) : option string :=
  match s with
  | [] => None
  | c :: s' => if Ascii.eqb c " " then Some s' else after_space s'
  end.

Definition unit_text (s : string) : string :=
  match after_space s with
  | Some u => u
  | None => s
  end.

Definition piece_minutes (s : string) : Z :=
  let n := UDIMPL.str_to_int (before_space s) in
  if eqb (unit_text s) (lit "days") then n * 1440
  else if eqb (unit_text s) (lit "hours") then n * 60
  else if eqb (unit_text s) (lit "minutes") then n
  else 0.

Definition sum_pieces (l : list string) : Z :=
  fold_right (fun p acc => piece_minutes p + acc) 0 l.
End Scan.

Module Occurrence.
(** [needle] occurs in [s] as a contiguous part. *)
Definition occurs (needle s : string) : Prop :=
  exists a b, s = a ++ needle ++ b.

(** A piece that ends at the first delimiter of the text it starts: the
    delimiter does not start inside the piece. *)
Definition closed_piece (p : string) : Prop :=
  ~ occurs UDIMPL.delim (p ++ [","%char]).

(** The pieces [ps], each followed by [", "], and then [t]. *)
Definition assemble (ps : list string) (t : string) : string :=
  fold_right (fun p acc => p ++ UDIMPL.delim ++ acc) t ps.
End Occurrence.

(** ** Primality checks *)

Module Primality.
(** Trial division: no [k] with [d <= k] and [k * k <= n] divides [n]. *)
Fixpoint no_divisor_from (fuel : nat) (d n : Z) : bool :=
  if n <? d * d then true
  else match fuel with
       | O => false
       | S fuel' =>
           if n mod d =? 0 then false else no_divisor_from fuel' (d + 1) n
       end.

Definition prime_by_trial (n : Z) : bool :=
  (1 <? n) && no_divisor_from (Z.to_nat (Z.sqrt n)) 2 n.

(** [n] is a multiple of a member of [ds] that is neither 1 nor [n]. *)
Definition composite_by (ds : list Z) (n : Z) : bool :=
  existsb (fun d => (1 <? d) && (d <? n) && (n mod d =? 0)) ds.

(** Small divisors of the numbers between [MOD] and [BASE]. *)
Definition small_divisors : list Z := [2; 3; 5; 7; 11; 13; 17; 157].
End Primality.

(** * Properties *)

(** ** Arithmetic of [int] *)

Section IntFacts.
Import Int.

Lemma wrap_in_range (z : Z) : in_range (wrap z).
Proof.
  unfold in_range, wrap, INT_MIN, INT_MAX, modulus, bits.
  pose proof (Z.mod_pos_bound (z + 2 ^ (32 - 1)) (2 ^ 32) ltac:(lia)). lia.
Qed.

Lemma wrap_small (z : Z) : in_range z -> wrap z = z.
Proof.
  unfold in_range, wrap, INT_MIN, INT_MAX, modulus, bits. intros H.
  rewrite Z.mod_small; lia.
Qed.

Lemma wrap_congruent (z : Z) : exists k, wrap z = z + k * modulus.
Proof.
  unfold wrap. exists (- ((z + 2 ^ (bits - 1)) / modulus)).
  pose proof (Z.div_mod (z + 2 ^ (bits - 1)) modulus).
  unfold modulus, bits in *. lia.
Qed.

Lemma wrap_shift (z k : Z) : wrap (z + k * modulus) = wrap z.
Proof.
  unfold wrap. replace (z + k * modulus + 2 ^ (bits - 1))
    with (z + 2 ^ (bits - 1) + k * modulus) by ring.
  rewrite Z.mod_add; [reflexivity | unfold modulus, bits; lia].
Qed.

Lemma wrap_add_l (a b : Z) : wrap (wrap a + b) = wrap (a + b).
Proof.
  destruct (wrap_congruent a) as [k ->].
  replace (a + k * modulus + b) with (a + b + k * modulus) by ring.
  apply wrap_shift.
Qed.

Lemma wrap_add_r (a b : Z) : wrap (a + wrap b) = wrap (a + b).
Proof. rewrite Z.add_comm, wrap_add_l. f_equal. ring. Qed.

Lemma wrap_mul_l (a b : Z) : wrap (wrap a * b) = wrap (a * b).
Proof.
  destruct (wrap_congruent a) as [k ->].
  replace ((a + k * modulus) * b) with (a * b + (k * b) * modulus) by ring.
  apply wrap_shift.
Qed.

Lemma wrap_wrap (z : Z) : wrap (wrap z) = wrap z.
Proof. apply wrap_small, wrap_in_range. Qed.
End IntFacts.

(** ** [std::string] members *)

Section StringFacts.

Lemma size_nonneg (s : string) : 0 <= size s.
Proof. unfold size. lia. Qed.

Lemma size_app (s t : string) : size (s ++ t) = size s + size t.
Proof. unfold size. rewrite length_app. lia. Qed.

Lemma size_cons (c : ascii) (s : string) : size (c :: s) = size s + 1.
Proof. unfold size. simpl length. lia. Qed.

Lemma npos_value : npos = 18446744073709551615.
Proof. reflexivity. Qed.

Lemma eqb_eq (s t : string) : eqb s t = true <-> s = t.
Proof.
  revert t. induction s as [|c s IH]; intros [|d t]; simpl; try easy.
  rewrite andb_true_iff, Ascii.eqb_eq, IH. split.
  - intros [-> ->]. reflexivity.
  - intros [= -> ->]. auto.
Qed.

Lemma starts_with_app (needle s : string) :
  starts_with needle s = true <-> exists t, s = needle ++ t.
Proof.
  revert s. induction needle as [|c needle IH]; intros s; simpl.
  - split; eauto.
  - destruct s as [|d s].
    + split; [discriminate | intros [t [=]]].
    + rewrite andb_true_iff, Ascii.eqb_eq, IH. split.
      * intros [-> [t ->]]. eauto.
      * intros [t [= -> ->]]. eauto.
Qed.

(** [find_from] returns the index of the leftmost occurrence, and [npos]
    exactly when there is none. *)
Lemma find_from_spec (needle s : string) (i : Z) :
  (find_from needle s i = npos /\ forall a b, s <> a ++ needle ++ b) \/
  (exists a b, s = a ++ needle ++ b /\ find_from needle s i = i + size a /\
               forall a' b', s = a' ++ needle ++ b' -> size a <= size a').
Proof.
  revert i. induction s as [|c s IH]; intros i; simpl.
  - destruct (starts_with needle []) eqn:E.
    + right. exists [], []. apply starts_with_app in E as [t E].
      destruct needle; [|discriminate]. simpl.
      repeat split; [unfold size; simpl; lia|]. intros. apply size_nonneg.
    + left. split; [reflexivity|]. intros a b H.
      assert (starts_with needle [] = true); [|congruence].
      apply starts_with_app. destruct a; [|discriminate].
      destruct needle; [|discriminate]. exists []. reflexivity.
  - destruct (starts_with needle (c :: s)) eqn:E.
    + right. apply starts_with_app in E as [t E]. exists [], t.
      repeat split; [exact E | unfold size; simpl; lia |].
      intros. apply size_nonneg.
    + destruct (IH (i + 1)) as [[Hn Hno] | (a & b & Hs & Hf & Hmin)].
      * left. split; [exact Hn|]. intros [|x a] b H; simpl in H.
        -- assert (starts_with needle (c :: s) = true); [|congruence].
           apply starts_with_app. eauto.
        -- injection H as _ H. eapply Hno; eauto.
      * right. exists (c :: a), b. subst s. repeat split.
        -- rewrite Hf, size_cons. lia.
        -- intros [|x a'] b' H; simpl in H.
           ++ assert (starts_with needle (c :: a ++ needle ++ b) = true);
                [|congruence].
              apply starts_with_app. eauto.
           ++ injection H as _ H. apply Hmin in H. rewrite !size_cons. lia.
Qed.

Lemma find_zero (str needle : string) :
  find str needle 0 = find_from needle str 0.
Proof.
  unfold find. pose proof (size_nonneg str).
  destruct (Z.ltb_spec (size str) 0); [lia | reflexivity].
Qed.

End StringFacts.

(** ** [is_contains] *)

Section IsContains.

(** C3: is_contains (str1, str2) is true exactly when str2 occurs as a
    contiguous part of str1, for every str1 short enough to be a
    std::string (its size below npos); hence it is true when str2 is
    empty and when str2 is str1. *)
Theorem is_contains_iff_substring (str1 str2 : string) :
  size str1 < npos ->
  (UDIMPL.is_contains str1 str2 = true <->
     exists a b, str1 = a ++ str2 ++ b) /\
  UDIMPL.is_contains str1 [] = true /\
  UDIMPL.is_contains str1 str1 = true.
Proof.
  intros Hsz.
  assert (Hiff : forall needle, UDIMPL.is_contains str1 needle = true <->
                                exists a b, str1 = a ++ needle ++ b).
  { intros needle. unfold UDIMPL.is_contains. rewrite find_zero.
    destruct (find_from_spec needle str1 0)
      as [[Hn Hno] | (a & b & Hs & Hf & _)].
    - rewrite Hn, Z.eqb_refl. simpl. split; [discriminate|].
      intros (a & b & H). destruct (Hno _ _ H).
    - split; [eauto|]. intros _. rewrite Hf.
      assert (size a <= size str1).
      { rewrite Hs, size_app. pose proof (size_nonneg (needle ++ b)). lia. }
      destruct (Z.eqb_spec (0 + size a) npos); [lia | reflexivity]. }
  split; [apply Hiff|]. split; apply Hiff.
  - exists [], str1. reflexivity.
  - exists [], []. simpl. now rewrite app_nil_r.
Qed.

Lemma is_contains_iff_substring_witness :
  size (lit "2 days, 3 hours") < npos /\
  ((UDIMPL.is_contains (lit "2 days, 3 hours") (lit "ys, 3") = true <->
      exists a b, lit "2 days, 3 hours" = a ++ lit "ys, 3" ++ b) /\
   UDIMPL.is_contains (lit "2 days, 3 hours") [] = true /\
   UDIMPL.is_contains (lit "2 days, 3 hours") (lit "2 days, 3 hours") = true).
Proof.
  split; [reflexivity|].
  apply (is_contains_iff_substring (lit "2 days, 3 hours") (lit "ys, 3")).
  reflexivity.
Defined.

End IsContains.

(** ** [str_to_int] *)

Section StrToInt.
Import Libc Numeral.

Lemma c_str_prefix (s : string) : exists t, s = c_str s ++ t.
Proof.
  induction s as [|c s [t IH]]; simpl.
  - exists []. reflexivity.
  - destruct (Ascii.eqb c zero).
    + exists (c :: s). reflexivity.
    + exists t. simpl. congruence.
Qed.

Lemma c_str_no_nul (s : string) :
  forallb (fun c => negb (Ascii.eqb c zero)) s = true -> c_str s = s.
Proof.
  induction s as [|c s IH]; simpl; [reflexivity|].
  rewrite andb_true_iff. intros [Hc Hs].
  destruct (Ascii.eqb c zero); [discriminate|]. now rewrite IH.
Qed.

Lemma isdigit_not_nul (c : ascii) :
  isdigit c = true -> negb (Ascii.eqb c zero) = true.
Proof. destruct (Ascii.eqb_spec c zero) as [->|]; [discriminate | reflexivity]. Qed.

Lemma isdigit_not_space (c : ascii) : isdigit c = true -> isspace c = false.
Proof. unfold isdigit, isspace. lia. Qed.

Lemma digits_no_nul (ds : string) :
  forallb isdigit ds = true ->
  forallb (fun c => negb (Ascii.eqb c zero)) ds = true.
Proof.
  rewrite !forallb_forall. intros H c Hc. apply isdigit_not_nul. auto.
Qed.

Lemma skip_space_split (s : string) :
  exists ws, s = ws ++ skip_space s /\ forallb isspace ws = true.
Proof.
  induction s as [|c s (ws & IH & Hws)]; simpl.
  - exists []. auto.
  - destruct (isspace c) eqn:E.
    + exists (c :: ws). simpl. rewrite E, Hws. split; [congruence | reflexivity].
    + exists []. auto.
Qed.

Lemma digit_bounds (c : ascii) : isdigit c = true -> 0 <= digit c <= 9.
Proof. unfold isdigit, digit. lia. Qed.

Lemma decimal_nonneg (ds : string) : forallb isdigit ds = true -> 0 <= decimal ds.
Proof.
  induction ds as [|d ds IH]; cbn [decimal forallb]; [lia|].
  rewrite andb_true_iff. intros [Hd Hds].
  pose proof (digit_bounds d Hd). pose proof (size_nonneg ds).
  specialize (IH Hds). nia.
Qed.

(** Horner's scheme of [strtol] against the positional value. *)
Lemma read_digits_decimal (ds : string) (acc : Z) :
  forallb isdigit ds = true ->
  read_digits acc ds = acc * 10 ^ size ds + decimal ds.
Proof.
  revert acc. induction ds as [|d ds IH]; intros acc;
    cbn [read_digits decimal forallb].
  - intros _. change (size []) with 0. lia.
  - rewrite andb_true_iff. intros [Hd Hds]. rewrite Hd, IH by assumption.
    rewrite size_cons, Z.pow_add_r by (pose proof (size_nonneg ds); lia).
    ring.
Qed.

Lemma read_digits_stop (acc : Z) (s : string) :
  match s with [] => True | c :: _ => isdigit c = false end ->
  read_digits acc s = acc.
Proof. destruct s as [|c s]; simpl; [reflexivity|]. now intros ->. Qed.

Lemma clamp_small (z : Z) : Int.in_range z -> Long.clamp z = z.
Proof.
  unfold Int.in_range, Int.INT_MIN, Int.INT_MAX, Int.bits, Long.clamp,
    Long.LONG_MIN, Long.LONG_MAX. lia.
Qed.

Lemma atoi_small (z : Z) : Int.in_range z -> Int.wrap (Long.clamp z) = z.
Proof. intros H. rewrite clamp_small, wrap_small; auto. Qed.

(** [str_to_int] on a numeral whose value an [int] can hold. *)
Lemma str_to_int_numeral (s : string) :
  is_numeral s = true -> Int.in_range (value s) ->
  UDIMPL.str_to_int s = value s.
Proof.
  unfold UDIMPL.str_to_int, atoi, strtol.
  destruct s as [|c ds]; [discriminate|]. unfold is_numeral, value.
  destruct (Ascii.eqb_spec c "-") as [->|Hm]; simpl orb.
  - rewrite andb_true_iff. intros [_ Hds] Hr.
    rewrite c_str_no_nul by (simpl; now apply digits_no_nul).
    simpl. rewrite read_digits_decimal by assumption.
    rewrite Z.mul_0_l, Z.add_0_l. now apply atoi_small.
  - destruct (Ascii.eqb_spec c "+") as [->|Hp].
    + rewrite andb_true_iff. intros [_ Hds] Hr.
      rewrite c_str_no_nul by (simpl; now apply digits_no_nul).
      simpl. rewrite read_digits_decimal by assumption.
      rewrite Z.mul_0_l, Z.add_0_l. now apply atoi_small.
    + intros Hds Hr. rewrite c_str_no_nul by now apply digits_no_nul.
      pose proof Hds as Hall. simpl in Hds.
      apply andb_true_iff in Hds as [Hc _].
      simpl skip_space. rewrite (isdigit_not_space c Hc).
      destruct (Ascii.eqb_spec c "-"); [contradiction|].
      destruct (Ascii.eqb_spec c "+"); [contradiction|].
      rewrite read_digits_decimal by assumption.
      rewrite Z.mul_0_l, Z.add_0_l. now apply atoi_small.
Qed.

(** [str_to_int] on a string that does not start with a number. *)
Lemma str_to_int_default (s : string) :
  ~ numeric_prefix s -> UDIMPL.str_to_int s = 0.
Proof.
  intros Hno. unfold UDIMPL.str_to_int, atoi, strtol.
  destruct (c_str_prefix s) as [t Hs].
  destruct (skip_space_split (c_str s)) as (ws & Hp & Hws).
  destruct (skip_space (c_str s)) as [|c s'] eqn:E; [reflexivity|].
  assert (Hstop : forall sgn d r, c :: s' = sgn ++ d :: r ->
            sgn = [] \/ sgn = lit "+" \/ sgn = lit "-" -> isdigit d = false).
  { intros sgn d r Hq Hsgn. destruct (isdigit d) eqn:Hd; [|reflexivity].
    exfalso. apply Hno. exists ws, sgn, d, (r ++ t).
    repeat split; auto.
    rewrite Hs, Hp, Hq, <- !app_assoc. reflexivity. }
  destruct (Ascii.eqb_spec c "-") as [->|Hm].
  - rewrite read_digits_stop; [reflexivity|].
    destruct s' as [|d r]; [exact I|].
    apply (Hstop (lit "-") d r); auto.
  - destruct (Ascii.eqb_spec c "+") as [->|Hpl].
    + rewrite read_digits_stop; [reflexivity|].
      destruct s' as [|d r]; [exact I|].
      apply (Hstop (lit "+") d r); auto.
    + rewrite read_digits_stop; [reflexivity|].
      apply (Hstop [] c s'); auto.
Qed.

(** C4: on an optional sign followed by decimal digits that denote a
    value an int can hold, str_to_int returns that value; on a string
    that, after white space, does not start with an optional sign and a
    digit, it returns 0. *)
Theorem str_to_int_correct (s : string) :
  (is_numeral s = true -> Int.in_range (value s) ->
   UDIMPL.str_to_int s = value s) /\
  (~ numeric_prefix s -> UDIMPL.str_to_int s = 0).
Proof. split; [apply str_to_int_numeral | apply str_to_int_default]. Qed.

Lemma no_numeric_prefix_abc : ~ numeric_prefix (lit "abc").
Proof.
  intros (ws & sgn & d & rest & H & Hws & Hsgn & Hd).
  destruct ws as [|w ws]; simpl in H.
  - destruct Hsgn as [->|[->| ->]]; simpl in H; try discriminate.
    injection H as <- _. discriminate.
  - injection H as <- _. discriminate.
Qed.

Lemma str_to_int_correct_witness :
  UDIMPL.str_to_int (lit "-2147483648") = -2147483648 /\
  UDIMPL.str_to_int (lit "abc") = 0.
Proof.
  split.
  - apply (proj1 (str_to_int_correct (lit "-2147483648"))).
    + reflexivity.
    + unfold Int.in_range. vm_compute. split; discriminate.
  - apply (proj2 (str_to_int_correct (lit "abc"))).
    exact no_numeric_prefix_abc.
Defined.

End StrToInt.

(** ** [add_3] and the signatures *)

Section Fixture.
Import Signature.

(** C7: the fixture header defines one function, add_3, and for every
    int num the result of add_3 is an int that differs from num + 3 by a
    multiple of 2^32: num + 3 itself unless that exceeds INT_MAX, and
    num + 3 - 2^32 then. *)
Theorem add_3_correct (num : Z) :
  Int.in_range num ->
  map name fixture = ["add_3"%string] /\
  Int.in_range (TestFixture.add_3 num) /\
  (TestFixture.add_3 num - (num + 3)) mod 2 ^ 32 = 0 /\
  (num + 3 <= Int.INT_MAX -> TestFixture.add_3 num = num + 3) /\
  (Int.INT_MAX < num + 3 -> TestFixture.add_3 num = num + 3 - 2 ^ 32).
Proof.
  intros Hr. unfold TestFixture.add_3, Int.add.
  split; [reflexivity|]. split; [apply wrap_in_range|].
  unfold Int.in_range, Int.INT_MIN, Int.INT_MAX, Int.bits in *.
  assert (Hcases : num + 3 <= 2 ^ 31 - 1 \/ 2 ^ 31 - 1 < num + 3) by lia.
  destruct Hcases as [H|H].
  - rewrite wrap_small
      by (unfold Int.in_range, Int.INT_MIN, Int.INT_MAX, Int.bits; lia).
    rewrite Z.sub_diag. split; [reflexivity|]. split; [reflexivity | lia].
  - assert (E : Int.wrap (num + 3) = num + 3 - 2 ^ 32).
    { rewrite <- (wrap_shift (num + 3) (-1)).
      apply wrap_small.
      unfold Int.in_range, Int.INT_MIN, Int.INT_MAX, Int.bits, Int.modulus.
      lia. }
    rewrite E. split; [|split; [lia | reflexivity]].
    replace (num + 3 - 2 ^ 32 - (num + 3)) with ((-1) * 2 ^ 32) by ring.
    apply Z.mod_mul. lia.
Qed.

Lemma add_3_correct_witness :
  Int.in_range 2147483646 /\
  map name fixture = ["add_3"%string] /\
  Int.in_range (TestFixture.add_3 2147483646) /\
  (TestFixture.add_3 2147483646 - (2147483646 + 3)) mod 2 ^ 32 = 0 /\
  (2147483646 + 3 <= Int.INT_MAX ->
   TestFixture.add_3 2147483646 = 2147483646 + 3) /\
  (Int.INT_MAX < 2147483646 + 3 ->
   TestFixture.add_3 2147483646 = 2147483646 + 3 - 2 ^ 32).
Proof.
  assert (H : Int.in_range 2147483646).
  { unfold Int.in_range. vm_compute. split; discriminate. }
  split; [exact H | exact (add_3_correct 2147483646 H)].
Defined.

(** C5: the return type and every parameter type of each of the five
    functions of the production ExprFunctions.hpp is int, float, double,
    bool, string or an accumulator. *)
Theorem production_signatures_supported :
  map name production =
    ["str_to_int"; "float_to_int"; "to_string"; "get_minutes";
     "is_contains"]%string /\
  Forall (fun f => supported (ret f) = true /\
                   Forall (fun t => supported t = true) (params f))
         production.
Proof.
  split; [reflexivity|].
  unfold production. repeat constructor.
Qed.

End Fixture.

(** ** [get_minutes] *)

Section GetMinutes.
Import Scan.

Lemma skipn_length_app {A : Type} (p q : list A) : skipn (length p) (p ++ q) = q.
Proof. induction p; simpl; auto. Qed.

Lemma firstn_length_app {A : Type} (p q : list A) : firstn (length p) (p ++ q) = p.
Proof. induction p; simpl; congruence. Qed.

Lemma to_nat_size (s : string) : Z.to_nat (size s) = length s.
Proof. unfold size. apply Nat2Z.id. Qed.

Lemma find_at (pre rest needle : string) :
  find (pre ++ rest) needle (size pre) = find_from needle rest (size pre).
Proof.
  unfold find. rewrite size_app. pose proof (size_nonneg rest).
  destruct (Z.ltb_spec (size pre + size rest) (size pre)); [lia|].
  now rewrite to_nat_size, skipn_length_app.
Qed.

Lemma substr_middle (pre a q : string) (n : Z) :
  n = size a -> substr (pre ++ a ++ q) (size pre) n = Returns a.
Proof.
  intros ->. unfold substr. rewrite !size_app.
  pose proof (size_nonneg a). pose proof (size_nonneg q).
  destruct (Z.ltb_spec (size pre + (size a + size q)) (size pre)); [lia|].
  rewrite Z.min_l by lia.
  now rewrite !to_nat_size, skipn_length_app, firstn_length_app.
Qed.

Lemma substr_tail (pre q : string) :
  size (pre ++ q) < npos -> substr (pre ++ q) (size pre) npos = Returns q.
Proof.
  unfold substr. rewrite !size_app. intros H.
  pose proof (size_nonneg pre). pose proof (size_nonneg q).
  destruct (Z.ltb_spec (size pre + size q) (size pre)); [lia|].
  rewrite Z.min_r by lia.
  replace (size pre + size q - size pre) with (size q) by ring.
  now rewrite !to_nat_size, skipn_length_app, firstn_all.
Qed.

(** The three comparisons of the loop body add [n] times the minutes of
    the unit, in [int] arithmetic. *)
Lemma account_branches (total n : Z) (u : string) :
  Int.in_range total ->
  (if eqb u (lit "days") then
     Returns (Int.add total (Int.mul (Int.mul n 60) 24))
   else if eqb u (lit "hours") then Returns (Int.add total (Int.mul n 60))
   else if eqb u (lit "minutes") then Returns (Int.add total n)
   else Returns total) =
  Returns (Int.wrap (total +
     (if eqb u (lit "days") then n * 1440
      else if eqb u (lit "hours") then n * 60
      else if eqb u (lit "minutes") then n
      else 0))).
Proof.
  intros Hr. unfold Int.add, Int.mul.
  destruct (eqb u (lit "days")).
  { rewrite wrap_mul_l, wrap_add_r. do 2 f_equal. ring. }
  destruct (eqb u (lit "hours")); [now rewrite wrap_add_r|].
  destruct (eqb u (lit "minutes")); [reflexivity|].
  now rewrite Z.add_0_r, wrap_small.
Qed.

(** The first space of a piece, as [find] sees it. *)
Lemma find_space (s : string) (i : Z) :
  match after_space s with
  | Some u => find_from (lit " ") s i = i + size (before_space s) /\
              s = before_space s ++ lit " " ++ u
  | None => find_from (lit " ") s i = npos /\ before_space s = s
  end.
Proof.
  change (lit " ") with [" "%char].
  revert i. induction s as [|c s IH]; intros i; [now split|].
  cbn [after_space before_space find_from starts_with].
  rewrite andb_true_r, Ascii.eqb_sym.
  destruct (Ascii.eqb_spec " " c) as [<-|Hc].
  - split; [change (size []) with 0; lia | reflexivity].
  - specialize (IH (i + 1)). destruct (after_space s) as [u|].
    + destruct IH as [-> Hs]. split; [rewrite size_cons; lia|].
      simpl. f_equal. exact Hs.
    + destruct IH as [-> Hs]. split; congruence.
Qed.

Lemma account_segment_spec (total : Z) (seg : string) :
  size seg < npos -> Int.in_range total ->
  UDIMPL.account_segment total seg =
    Returns (Int.wrap (total + piece_minutes seg)).
Proof.
  intros Hsz Hr. unfold UDIMPL.account_segment, piece_minutes, unit_text.
  rewrite find_zero. pose proof (find_space seg 0) as Hsp.
  destruct (after_space seg) as [u|].
  - destruct Hsp as [-> Hseg]. set (num := before_space seg) in *.
    assert (Hnum : substr seg 0 (0 + size num) = Returns num).
    { rewrite Hseg at 1. apply (substr_middle [] num). lia. }
    assert (Hunit : substr seg (SizeT.add (0 + size num) 1) npos = Returns u).
    { assert (E : SizeT.add (0 + size num) 1 = size (num ++ lit " ")).
      { rewrite size_app. change (size (lit " ")) with 1.
        unfold SizeT.add, SizeT.wrap. apply Z.mod_small.
        pose proof (size_nonneg num). rewrite Hseg, size_app in Hsz.
        pose proof (size_nonneg (lit " " ++ u)).
        change SizeT.modulus with (npos + 1). lia. }
      rewrite E. rewrite Hseg at 1. rewrite app_assoc.
      apply substr_tail. now rewrite <- app_assoc, <- Hseg. }
    rewrite Hnum, Hunit. cbn [bind]. apply account_branches; assumption.
  - destruct Hsp as [-> Hseg]. rewrite Hseg.
    assert (Hnum : substr seg 0 npos = Returns seg).
    { apply (substr_tail [] seg). exact Hsz. }
    change (SizeT.add npos 1) with 0.
    rewrite Hnum. cbn [bind]. apply account_branches; assumption.
Qed.

Lemma pieces_cons (c d : ascii) (r : string) :
  pieces (c :: d :: r) =
    if is_delim c d then [] :: pieces r else push c (pieces (d :: r)).
Proof. reflexivity. Qed.

Lemma find_from_cons (needle : string) (c : ascii) (s : string) (i : Z) :
  find_from needle (c :: s) i =
    if starts_with needle (c :: s) then i else find_from needle s (i + 1).
Proof. reflexivity. Qed.

Lemma starts_with_delim (c d : ascii) (r : string) :
  starts_with UDIMPL.delim (c :: d :: r) = is_delim c d.
Proof.
  change UDIMPL.delim with [","%char; " "%char].
  cbn [starts_with]. unfold is_delim.
  now rewrite andb_true_r, (Ascii.eqb_sym "," c), (Ascii.eqb_sym " " d).
Qed.

(** The leftmost delimiter, as [find] sees it, against [pieces]. *)
Lemma find_delim (s : string) (i : Z) :
  match pieces s with
  | [] => find_from UDIMPL.delim s i = npos
  | a :: l => find_from UDIMPL.delim s i = i + size a /\
              exists b, s = a ++ UDIMPL.delim ++ b /\ pieces b = l
  end.
Proof.
  revert i. induction s as [|c s IH]; intros i; [reflexivity|].
  destruct s as [|d r].
  - cbn. now rewrite andb_false_r.
  - rewrite pieces_cons, find_from_cons, starts_with_delim.
    destruct (is_delim c d) eqn:E.
    + apply andb_true_iff in E as [Ec Ed].
      apply Ascii.eqb_eq in Ec, Ed. subst c d.
      split; [change (size []) with 0; lia|]. exists r. auto.
    + specialize (IH (i + 1)). destruct (pieces (d :: r)) as [|a l].
      * exact IH.
      * destruct IH as (-> & b & Hs & Hb). cbn [push].
        split; [rewrite size_cons; lia|]. exists b. split; [|exact Hb].
        rewrite Hs. reflexivity.
Qed.

Lemma pieces_occurrence (s a : string) (l : list string) :
  pieces s = a :: l -> exists b, s = a ++ UDIMPL.delim ++ b /\ pieces b = l.
Proof. intros E. pose proof (find_delim s 0) as H. rewrite E in H. apply H. Qed.

Lemma pieces_length (s : string) : (length (pieces s) <= length s)%nat.
Proof.
  remember (length s) as n eqn:Hn. revert s Hn.
  induction n as [n IH] using lt_wf_ind. intros s ->.
  destruct (pieces s) as [|a l] eqn:E; [simpl; lia|].
  apply pieces_occurrence in E as (b & -> & <-).
  specialize (IH (length b)). rewrite !length_app in *. simpl in *.
  specialize (IH ltac:(lia) b eq_refl). lia.
Qed.

(** The loop from a delimiter boundary on: [pre] has been consumed,
    [rest] is still to be scanned. *)
Lemma loop_pieces (fuel : nat) :
  forall (pre rest : string) (total : Z),
    size (pre ++ rest) < npos -> Int.in_range total ->
    (length (pieces rest) <= fuel)%nat ->
    UDIMPL.get_minutes_loop fuel (pre ++ rest) total
      (find (pre ++ rest) UDIMPL.delim (size pre)) (size pre) =
    Returns (Int.wrap (total + sum_pieces (pieces rest))).
Proof.
  induction fuel as [|fuel IH]; intros pre rest total Hsz Hr Hfuel;
    rewrite find_at; pose proof (find_delim rest (size pre)) as Hfind;
    destruct (pieces rest) as [|a l] eqn:E.
  - rewrite Hfind. cbn. now rewrite Z.add_0_r, wrap_small.
  - simpl in Hfuel. lia.
  - rewrite Hfind. cbn. now rewrite Z.add_0_r, wrap_small.
  - destruct Hfind as (Hcur & b & Hrest & Hb). rewrite Hcur. subst rest.
    rewrite !size_app in Hsz. change (size UDIMPL.delim) with 2 in Hsz.
    pose proof (size_nonneg pre). pose proof (size_nonneg a).
    pose proof (size_nonneg b).
    cbn [UDIMPL.get_minutes_loop].
    destruct (Z.eqb_spec (size pre + size a) npos) as [|_]; [lia|].
    unfold UDIMPL.add_segment.
    rewrite substr_middle.
    2:{ unfold SizeT.sub, SizeT.wrap.
        replace (size pre + size a - size pre) with (size a) by ring.
        apply Z.mod_small. change SizeT.modulus with (npos + 1). lia. }
    cbn [bind]. rewrite account_segment_spec by (assumption || lia).
    cbn [bind].
    assert (Hprev : SizeT.add (size pre + size a) 2
                    = size (pre ++ a ++ UDIMPL.delim)).
    { rewrite !size_app. change (size UDIMPL.delim) with 2.
      unfold SizeT.add, SizeT.wrap. rewrite Z.add_assoc.
      apply Z.mod_small. change SizeT.modulus with (npos + 1). lia. }
    rewrite Hprev.
    replace (pre ++ a ++ UDIMPL.delim ++ b)
      with ((pre ++ a ++ UDIMPL.delim) ++ b)
      by now rewrite <- !app_assoc.
    rewrite IH.
    + rewrite Hb, wrap_add_l. unfold sum_pieces. cbn [fold_right].
      now rewrite Z.add_assoc.
    + rewrite !size_app. change (size UDIMPL.delim) with 2. lia.
    + apply wrap_in_range.
    + rewrite Hb. simpl in Hfuel. lia.
Qed.

(** [get_minutes] returns, and returns the sum over the pieces of its
    argument in [int] arithmetic. *)
Lemma get_minutes_pieces (str : string) :
  size str < npos ->
  UDIMPL.get_minutes str = Returns (Int.wrap (sum_pieces (pieces str))).
Proof.
  intros Hsz. unfold UDIMPL.get_minutes.
  destruct str as [|c str]; [reflexivity|]. cbn [empty].
  pose proof (loop_pieces (length (c :: str)) [] (c :: str) 0) as H.
  cbn [app] in H. change (size []) with 0 in H. rewrite H; auto.
  - unfold Int.in_range. vm_compute. split; discriminate.
  - apply pieces_length.
Qed.

(** *** Pieces of composed strings *)

Lemma is_delim_comma (c : ascii) : is_delim c "," = false.
Proof. unfold is_delim. now rewrite andb_false_r. Qed.

Lemma pieces_delim (b : string) : pieces (UDIMPL.delim ++ b) = [] :: pieces b.
Proof. reflexivity. Qed.

(** A piece without a comma is found whole. *)
Lemma pieces_no_comma (a b : string) :
  ~ In ","%char a -> pieces (a ++ UDIMPL.delim ++ b) = a :: pieces b.
Proof.
  induction a as [|c a IH]; intros Hc; [apply pieces_delim|].
  assert (Hc' : ~ In ","%char a) by (intros H; apply Hc; now right).
  specialize (IH Hc'). destruct a as [|d r].
  - change (pieces (c :: ","%char :: " "%char :: b) = [c] :: pieces b).
    rewrite pieces_cons, is_delim_comma.
    change (","%char :: " "%char :: b) with (UDIMPL.delim ++ b).
    now rewrite pieces_delim.
  - change (pieces (c :: d :: r ++ UDIMPL.delim ++ b)
            = (c :: d :: r) :: pieces b).
    rewrite pieces_cons.
    assert (E : is_delim c d = false).
    { unfold is_delim. destruct (Ascii.eqb_spec c ","); [|reflexivity].
      subst c. destruct Hc. now left. }
    rewrite E. change (d :: r ++ UDIMPL.delim ++ b)
      with ((d :: r) ++ UDIMPL.delim ++ b).
    now rewrite IH.
Qed.

(** After a string that ends with the delimiter the scan starts
    afresh. *)
Lemma pieces_app_delim (p : string) :
  (forall t, pieces (p ++ UDIMPL.delim ++ t)
             = pieces (p ++ UDIMPL.delim) ++ pieces t /\
             pieces (p ++ UDIMPL.delim) <> []) /\
  (forall c t, pieces ((c :: p) ++ UDIMPL.delim ++ t)
               = pieces ((c :: p) ++ UDIMPL.delim) ++ pieces t /\
               pieces ((c :: p) ++ UDIMPL.delim) <> []).
Proof.
  induction p as [|d r [IHr IHdr]].
  - split; [intros t; split; [reflexivity | discriminate]|].
    intros c t.
    change (pieces (c :: ","%char :: " "%char :: t)
            = pieces (c :: ","%char :: [" "%char]) ++ pieces t /\
            pieces (c :: ","%char :: [" "%char]) <> []).
    rewrite !pieces_cons, is_delim_comma.
    split; [reflexivity | discriminate].
  - split; [apply IHdr|]. intros c t.
    change (pieces (c :: d :: r ++ UDIMPL.delim ++ t)
            = pieces (c :: d :: r ++ UDIMPL.delim) ++ pieces t /\
            pieces (c :: d :: r ++ UDIMPL.delim) <> []).
    rewrite !pieces_cons. destruct (is_delim c d).
    + destruct (IHr t) as [-> _]. split; [reflexivity | discriminate].
    + destruct (IHdr d t) as [E Hne]. cbn [app] in E, Hne. rewrite E.
      destruct (pieces (d :: r ++ UDIMPL.delim)) as [|x l];
        [contradiction|].
      split; [reflexivity | discriminate].
Qed.

Lemma sum_pieces_app (l1 l2 : list string) :
  sum_pieces (l1 ++ l2) = sum_pieces l1 + sum_pieces l2.
Proof.
  unfold sum_pieces. induction l1 as [|x l1 IH]; cbn [app fold_right];
    [reflexivity|]. rewrite IH. ring.
Qed.

Lemma no_occurrence_by_find (needle s : string) :
  size s < npos -> find_from needle s 0 = npos ->
  forall a b, s <> a ++ needle ++ b.
Proof.
  intros Hsz Hf.
  destruct (find_from_spec needle s 0) as [[_ H] | (a & b & Hs & Hf' & _)];
    [exact H|].
  exfalso. rewrite Hf' in Hf. pose proof (size_nonneg a).
  rewrite Hs, size_app in Hsz. pose proof (size_nonneg (needle ++ b)). lia.
Qed.

(** *** The claims on [get_minutes] *)

(** C2: for the empty string get_minutes returns 0; the result is the
    constant of the first branch, nothing else is evaluated. *)
Theorem get_minutes_empty : UDIMPL.get_minutes (lit "") = Returns 0.
Proof. reflexivity. Qed.

(** C8: for every non-empty string without an occurrence of the
    delimiter ", " get_minutes returns 0, so a single segment that no
    delimiter follows adds nothing. *)
Theorem get_minutes_no_delimiter (str : string) :
  str <> [] -> size str < npos ->
  (forall a b, str <> a ++ lit ", " ++ b) ->
  UDIMPL.get_minutes str = Returns 0.
Proof.
  intros _ Hsz Hno. rewrite get_minutes_pieces by assumption.
  destruct (pieces str) as [|a l] eqn:E; [reflexivity|].
  apply pieces_occurrence in E as (b & Hs & _). destruct (Hno _ _ Hs).
Qed.

Lemma get_minutes_no_delimiter_witness :
  UDIMPL.get_minutes (lit "90 minutes") = Returns 0.
Proof.
  apply (get_minutes_no_delimiter (lit "90 minutes")).
  - discriminate.
  - reflexivity.
  - apply no_occurrence_by_find; reflexivity.
Defined.

(** C9: for every non-empty s1 that ends with the delimiter ", " and
    every s2, get_minutes returns on s1, on s2 and on s1 ++ s2, and the
    third result is the sum of the first two as the program adds ints;
    it is their sum as integers whenever that is an int. *)
Theorem get_minutes_additive (s1 s2 : string) :
  s1 <> [] -> (exists p, s1 = p ++ lit ", ") -> size (s1 ++ s2) < npos ->
  exists m1 m2,
    UDIMPL.get_minutes s1 = Returns m1 /\
    UDIMPL.get_minutes s2 = Returns m2 /\
    UDIMPL.get_minutes (s1 ++ s2) = Returns (Int.add m1 m2) /\
    (Int.in_range (m1 + m2) ->
     UDIMPL.get_minutes (s1 ++ s2) = Returns (m1 + m2)).
Proof.
  intros _ [p ->] Hsz. rewrite size_app in Hsz.
  change (lit ", ") with UDIMPL.delim in *.
  pose proof (size_nonneg (p ++ UDIMPL.delim)). pose proof (size_nonneg s2).
  set (m1 := Int.wrap (sum_pieces (pieces (p ++ UDIMPL.delim)))).
  set (m2 := Int.wrap (sum_pieces (pieces s2))).
  exists m1, m2.
  assert (E : UDIMPL.get_minutes ((p ++ UDIMPL.delim) ++ s2) =
              Returns (Int.add m1 m2)).
  { rewrite get_minutes_pieces by (rewrite size_app; lia).
    rewrite <- app_assoc.
    destruct (proj1 (pieces_app_delim p) s2) as [-> _].
    rewrite sum_pieces_app. unfold Int.add, m1, m2.
    now rewrite wrap_add_l, wrap_add_r. }
  repeat split.
  - apply get_minutes_pieces. lia.
  - apply get_minutes_pieces. lia.
  - exact E.
  - intros Hr. rewrite E. unfold Int.add. now rewrite wrap_small.
Qed.

Lemma get_minutes_additive_witness :
  exists m1 m2,
    UDIMPL.get_minutes (lit "2 days, ") = Returns m1 /\
    UDIMPL.get_minutes (lit "3 hours, 30 minutes") = Returns m2 /\
    UDIMPL.get_minutes (lit "2 days, " ++ lit "3 hours, 30 minutes")
      = Returns (Int.add m1 m2) /\
    (Int.in_range (m1 + m2) ->
     UDIMPL.get_minutes (lit "2 days, " ++ lit "3 hours, 30 minutes")
       = Returns (m1 + m2)).
Proof.
  apply (get_minutes_additive (lit "2 days, ") (lit "3 hours, 30 minutes")).
  - discriminate.
  - exists (lit "2 days"). reflexivity.
  - reflexivity.
Defined.

(** *** Strings made of well-formed segments *)

Import Duration.

Lemma numeral_chars (s : string) :
  Numeral.is_numeral s = true -> forallb Numeral.numeral_char s = true.
Proof.
  assert (Hd : forall ds, forallb Libc.isdigit ds = true ->
                          forallb Numeral.numeral_char ds = true).
  { intros ds. rewrite !forallb_forall. intros H c Hc.
    unfold Numeral.numeral_char. now rewrite (H c Hc). }
  destruct s as [|c ds]; [discriminate|]. unfold Numeral.is_numeral.
  destruct (Ascii.eqb c "-" || Ascii.eqb c "+") eqn:E.
  - rewrite andb_true_iff. intros [_ H]. cbn [forallb].
    rewrite (Hd ds H), andb_true_r. unfold Numeral.numeral_char.
    rewrite <- orb_assoc, E. apply orb_true_r.
  - apply Hd.
Qed.

Lemma numeral_char_plain (c : ascii) :
  Numeral.numeral_char c = true -> c <> " "%char /\ c <> ","%char.
Proof. split; intros ->; discriminate. Qed.

Lemma numeral_without (s : string) :
  Numeral.is_numeral s = true -> ~ In " "%char s /\ ~ In ","%char s.
Proof.
  intros H. apply numeral_chars in H. rewrite forallb_forall in H.
  split; intros Hin; apply H, numeral_char_plain in Hin; tauto.
Qed.

Lemma cut_at_space (a u : string) :
  ~ In " "%char a ->
  before_space (a ++ lit " " ++ u) = a /\
  after_space (a ++ lit " " ++ u) = Some u.
Proof.
  induction a as [|c a IH]; intros Hc; [now split|].
  cbn [app before_space after_space].
  destruct (Ascii.eqb_spec c " ") as [->|_]; [destruct Hc; now left|].
  destruct IH as [-> ->]; [intros H; apply Hc; now right | now split].
Qed.

Lemma piece_minutes_segment (sg : segment) :
  well_formed sg -> piece_minutes (segment_text sg) = segment_minutes sg.
Proof.
  destruct sg as [n u]. unfold well_formed, segment_text, segment_minutes.
  cbn [fst snd]. intros [Hn Hr].
  destruct (numeral_without n Hn) as [Hsp _].
  destruct (cut_at_space n (unit_name u) Hsp) as [Hb Ha].
  unfold piece_minutes, unit_text. rewrite Hb, Ha.
  rewrite (str_to_int_numeral n Hn Hr).
  destruct u; cbn; ring.
Qed.

Lemma segment_text_no_comma (sg : segment) :
  well_formed sg -> ~ In ","%char (segment_text sg).
Proof.
  destruct sg as [n u]. unfold well_formed, segment_text. cbn [fst snd].
  intros [Hn _] Hin. destruct (numeral_without n Hn) as [_ Hc].
  apply in_app_or in Hin as [Hin | Hin]; [tauto|].
  destruct u; cbn in Hin; repeat (destruct Hin as [Hin | Hin];
    [discriminate|]); exact Hin.
Qed.

Lemma pieces_terminated (l : list segment) :
  Forall well_formed l -> pieces (terminated l) = map segment_text l.
Proof.
  induction 1 as [|sg l Hsg _ IH]; [reflexivity|].
  cbn [terminated map].
  rewrite pieces_no_comma by now apply segment_text_no_comma.
  now rewrite IH.
Qed.

Lemma sum_pieces_segments (l : list segment) :
  Forall well_formed l -> sum_pieces (map segment_text l) = total_minutes l.
Proof.
  unfold sum_pieces, total_minutes.
  induction 1 as [|sg l Hsg _ IH]; [reflexivity|].
  cbn [map fold_right]. now rewrite IH, piece_minutes_segment.
Qed.

(** C1, as the code has it: for every string made of segments
    "<N> days", "<N> hours" or "<N> minutes", N an optional sign and
    decimal digits with a value an int can hold, each segment followed
    by the delimiter ", ", get_minutes returns the total of the segments
    in minutes, a day counted as 1440 and an hour as 60, reduced to an
    int; that is the total itself whenever the total is an int. *)
Theorem get_minutes_terminated_segments (l : list segment) :
  Forall well_formed l -> size (terminated l) < npos ->
  UDIMPL.get_minutes (terminated l) = Returns (Int.wrap (total_minutes l)) /\
  (Int.in_range (total_minutes l) ->
   UDIMPL.get_minutes (terminated l) = Returns (total_minutes l)).
Proof.
  intros Hwf Hsz.
  assert (E : UDIMPL.get_minutes (terminated l)
              = Returns (Int.wrap (total_minutes l))).
  { rewrite get_minutes_pieces by assumption.
    now rewrite pieces_terminated, sum_pieces_segments. }
  split; [exact E|]. intros Hr. now rewrite E, wrap_small.
Qed.

Lemma example_duration_well_formed : Forall well_formed example_duration.
Proof.
  repeat constructor; unfold Int.in_range; vm_compute; discriminate.
Qed.

Lemma get_minutes_terminated_segments_witness :
  terminated example_duration = lit "2 days, 3 hours, 30 minutes, " /\
  total_minutes example_duration = 2 * 1440 + 3 * 60 + 30 /\
  UDIMPL.get_minutes (terminated example_duration) = Returns 3090.
Proof.
  split; [reflexivity|]. split; [reflexivity|].
  apply (get_minutes_terminated_segments example_duration).
  - exact example_duration_well_formed.
  - reflexivity.
  - unfold Int.in_range. vm_compute. split; discriminate.
Defined.

(** C1, as the claim has it, fails on its own example: the last segment
    is followed by no delimiter and is not counted.  It also fails on
    well-formed segments whose total no int can hold. *)
Lemma get_minutes_joined_counterexample :
  (Forall well_formed example_duration /\
   joined example_duration = lit "2 days, 3 hours, 30 minutes" /\
   total_minutes example_duration = 2 * 1440 + 3 * 60 + 30 /\
   UDIMPL.get_minutes (joined example_duration) = Returns 3060 /\
   3060 <> 2 * 1440 + 3 * 60 + 30) /\
  (Forall well_formed long_duration /\
   joined long_duration = lit "3000000 days, 0 minutes" /\
   total_minutes long_duration = 4320000000 /\
   UDIMPL.get_minutes (joined long_duration) = Returns 25032704).
Proof.
  split.
  - split; [exact example_duration_well_formed|].
    repeat split; try reflexivity. discriminate.
  - split; [|repeat split; reflexivity].
    repeat constructor; unfold Int.in_range; vm_compute; discriminate.
Qed.

End GetMinutes.

(** ** The constants of [ExprUtil.hpp] *)

Section NumberTheory.
Import Primality.

Lemma no_divisor_from_sound (fuel : nat) :
  forall d n, 0 < d -> no_divisor_from fuel d n = true ->
              forall k, d <= k -> k * k <= n -> ~ (k | n).
Proof.
  induction fuel as [|fuel IH]; intros d n Hd; cbn [no_divisor_from];
    destruct (Z.ltb_spec n (d * d)); try discriminate; try nia.
  destruct (Z.eqb_spec (n mod d) 0) as [|Hmod]; [discriminate|].
  intros Hrec k Hk Hkk Hdiv.
  destruct (Z.eq_dec k d) as [->|Hne].
  - apply Hmod, Z.mod0_divide, Hdiv.
  - apply (IH (d + 1) n ltac:(lia) Hrec k); auto. lia.
Qed.

Lemma prime_by_trial_sound (n : Z) : prime_by_trial n = true -> Z.prime n.
Proof.
  unfold prime_by_trial. rewrite andb_true_iff. intros [Hn Htrial].
  apply Z.ltb_lt in Hn. split; [exact Hn|]. intros m Hm [j Hj].
  assert (Hjm : 1 < j < n) by nia.
  pose proof (no_divisor_from_sound _ 2 n ltac:(lia) Htrial) as Hno.
  destruct (Z.le_gt_cases m j).
  - apply (Hno m); [lia | nia | exists j; exact Hj].
  - apply (Hno j); [lia | nia | exists m; lia].
Qed.

Lemma composite_by_sound (ds : list Z) (n : Z) :
  composite_by ds n = true -> ~ Z.prime n.
Proof.
  unfold composite_by. rewrite existsb_exists.
  intros (d & _ & H) [_ Hp].
  apply andb_true_iff in H as [H Hmod]. apply andb_true_iff in H as [H1 H2].
  apply Z.ltb_lt in H1, H2. apply Z.eqb_eq in Hmod.
  apply (Hp d); [lia|]. apply Z.mod_divide; [lia | exact Hmod].
Qed.

Lemma pow_mod_one (x k p : Z) :
  1 < p -> x mod p = 1 -> (x ^ k) mod p = 1 \/ k < 0.
Proof.
  intros Hp Hx. destruct (Z.lt_ge_cases k 0); [now right | left].
  rewrite <- Z.mod_pow_l, Hx, Z.pow_1_l by assumption.
  apply Z.mod_1_l. exact Hp.
Qed.

(** Exponents that send [a] to 1 modulo [p] are closed under [gcd]. *)
Lemma pow_gcd_one (a p : Z) :
  1 < p ->
  forall n, 0 <= n -> forall m, 0 <= m ->
    a ^ m mod p = 1 -> a ^ n mod p = 1 -> a ^ Z.gcd m n mod p = 1.
Proof.
  intros Hp n Hn. pattern n. apply Zlt_0_ind; [clear n Hn | exact Hn].
  intros n IH Hn m Hm Ham Han.
  destruct (Z.eq_dec n 0) as [->|Hnz].
  - now rewrite Z.gcd_0_r_nonneg.
  - pose proof (Z.mod_pos_bound m n ltac:(lia)) as Hr.
    pose proof (Z.div_pos m n Hm ltac:(lia)) as Hq.
    assert (Har : a ^ (m mod n) mod p = 1).
    { rewrite (Z.div_mod m n Hnz) in Ham at 1.
      rewrite Z.pow_add_r, Z.pow_mul_r in Ham by nia.
      rewrite Z.mul_mod in Ham by lia.
      destruct (pow_mod_one (a ^ n) (m / n) p Hp Han) as [E|]; [|lia].
      rewrite E, Z.mul_1_l, Z.mod_mod in Ham by lia. exact Ham. }
    rewrite (Z.gcd_comm m n), <- (Z.gcd_mod m n Hnz), Z.gcd_comm.
    apply IH; auto.
Qed.

Lemma exists_prime_divisor (n : Z) :
  1 < n -> exists p, Z.prime p /\ (p | n).
Proof.
  intros Hn. assert (H0 : 0 <= n) by lia. revert Hn. pattern n.
  apply Zlt_0_ind; [clear n H0 | exact H0]. intros n IH _ Hn.
  destruct (prime_dec n) as [Hp | Hnp].
  - exists n. split; [now apply prime_alt | apply Z.divide_refl].
  - destruct (not_prime_divide n Hn Hnp) as (m & Hm & Hdiv).
    destruct (IH m ltac:(lia) ltac:(lia)) as (p & Hp & Hpm).
    exists p. split; [exact Hp | now apply Z.divide_trans with m].
Qed.

(** Pocklington's criterion, one prime factor [q] of [N - 1] at a time:
    every prime factor of [N] is 1 modulo [q]. *)
Lemma pocklington_factor (N a q p : Z) :
  1 < N -> Z.prime q -> (q | N - 1) ->
  a ^ (N - 1) mod N = 1 ->
  Z.gcd (a ^ ((N - 1) / q) mod N - 1) N = 1 ->
  Z.prime p -> (p | N) -> (q | p - 1).
Proof.
  intros HN Hq Hqd Hfermat Hgcd Hp HpN.
  pose proof (Z.prime_ge_2 _ Hp) as Hp2. pose proof (Z.prime_ge_2 _ Hq) as Hq2.
  assert (HaN : a ^ (N - 1) mod p = 1).
  { rewrite <- (Z.mod_mod_divide _ N p HpN), Hfermat. apply Z.mod_1_l. lia. }
  assert (Hap : a mod p <> 0).
  { intros H0. rewrite <- Z.mod_pow_l, H0, Z.pow_0_l in HaN by lia.
    rewrite Z.mod_0_l in HaN by lia. discriminate. }
  pose proof (Z.fermat_nz p a Hp Hap) as Hflt.
  pose proof (pow_gcd_one a p ltac:(lia) (p - 1) ltac:(lia) (N - 1)
                ltac:(lia) HaN Hflt) as Hg.
  set (g := Z.gcd (N - 1) (p - 1)) in *.
  destruct (Z.BoolSpec_divide_nz q (p - 1) ltac:(lia)) as [|Hndiv];
    [assumption | exfalso].
  assert (Hcop : Z.gcd g q = 1).
  { rewrite Z.gcd_comm. apply Z.coprime_prime_l; [exact Hq|].
    intros Hqg. apply Hndiv. apply Z.divide_trans with g; [exact Hqg|].
    apply Z.gcd_divide_r. }
  assert (HgR : (g | (N - 1) / q)).
  { apply Z.gauss with q; [|exact Hcop].
    destruct Hqd as [r Hr]. rewrite Hr, Z.div_mul by lia.
    rewrite Z.mul_comm, <- Hr. apply Z.gcd_divide_l. }
  destruct HgR as [j Hj].
  assert (Hg0 : 0 < g).
  { pose proof (Z.gcd_nonneg (N - 1) (p - 1)). fold g in H.
    destruct (Z.eq_dec g 0) as [E|]; [|lia].
    unfold g in E. apply Z.gcd_eq_0_l in E. lia. }
  assert (HR0 : 0 <= (N - 1) / q) by (apply Z.div_pos; lia).
  assert (Hj0 : 0 <= j) by nia.
  assert (HaR : a ^ ((N - 1) / q) mod p = 1).
  { rewrite Hj, Z.mul_comm, Z.pow_mul_r by lia.
    destruct (pow_mod_one (a ^ g) j p ltac:(lia) Hg); [assumption | lia]. }
  assert (Hp1 : (p | 1)).
  { rewrite <- Hgcd. apply Z.gcd_greatest; [|exact HpN].
    apply Z.mod_divide; [lia|].
    rewrite Zminus_mod, (Z.mod_mod_divide _ N p HpN), HaR.
    rewrite Z.mod_1_l by lia. reflexivity. }
  apply Z.divide_1_r_nonneg in Hp1; lia.
Qed.

(** Pocklington's criterion with two prime factors of [N - 1] whose
    product exceeds the square root of [N]; the powers of the base [a]
    are computed by [Zpow_mod]. *)
Theorem pocklington (N a q1 q2 : Z) :
  1 < N -> Z.prime q1 -> Z.prime q2 -> q1 <> q2 ->
  (q1 | N - 1) -> (q2 | N - 1) -> N < (q1 * q2 + 1) * (q1 * q2 + 1) ->
  Zpow_mod a (N - 1) N = 1 ->
  Z.gcd (Zpow_mod a ((N - 1) / q1) N - 1) N = 1 ->
  Z.gcd (Zpow_mod a ((N - 1) / q2) N - 1) N = 1 ->
  Z.prime N.
Proof.
  intros HN Hq1 Hq2 Hne Hd1 Hd2 Hbig Hfermat Hg1 Hg2.
  rewrite Zpow_mod_correct in Hfermat, Hg1, Hg2 by lia.
  pose proof (Z.prime_ge_2 _ Hq1). pose proof (Z.prime_ge_2 _ Hq2).
  assert (Hcop : Z.gcd q1 q2 = 1).
  { apply Z.coprime_prime_l; [exact Hq1|]. intros Hdiv.
    apply Z.divide_prime_prime in Hdiv; auto. }
  assert (Hfactor : forall p, Z.prime p -> (p | N) -> q1 * q2 + 1 <= p).
  { intros p Hp HpN. pose proof (Z.prime_ge_2 _ Hp).
    pose proof (pocklington_factor N a q1 p HN Hq1 Hd1 Hfermat Hg1 Hp HpN)
      as [k1 Hk1].
    pose proof (pocklington_factor N a q2 p HN Hq2 Hd2 Hfermat Hg2 Hp HpN)
      as Hk2.
    rewrite Hk1, Z.mul_comm in Hk2.
    apply Z.gauss in Hk2; [|now rewrite Z.gcd_comm].
    destruct Hk2 as [k2 Hk2]. subst k1.
    assert (0 < k2) by nia. nia. }
  split; [exact HN|]. intros m Hm [j Hj].
  assert (Hj1 : 1 < j) by nia.
  destruct (exists_prime_divisor m ltac:(lia)) as (p & Hp & Hpm).
  destruct (exists_prime_divisor j Hj1) as (p' & Hp' & Hpj).
  assert (q1 * q2 + 1 <= p).
  { apply Hfactor; [exact Hp|]. rewrite Hj.
    now apply Z.divide_mul_r. }
  assert (q1 * q2 + 1 <= p').
  { apply Hfactor; [exact Hp'|]. rewrite Hj.
    now apply Z.divide_mul_l. }
  apply Z.divide_pos_le in Hpm; [|lia].
  apply Z.divide_pos_le in Hpj; [|lia]. nia.
Qed.
End NumberTheory.

Section Constants.
Import ExprUtil Primality.

Lemma prime_319279 : Z.prime 319279.
Proof. apply prime_by_trial_sound. vm_compute. reflexivity. Qed.

Lemma prime_456065899 : Z.prime 456065899.
Proof. apply prime_by_trial_sound. vm_compute. reflexivity. Qed.

(** [MOD - 1 = 2 * 3^4 * 17 * 23 * 319279 * 456065899]; the last two
    factors are prime and their product exceeds the square root of
    [MOD]. *)
Lemma MOD_prime : Z.prime MOD.
Proof.
  apply (pocklington MOD 2 319279 456065899).
  - reflexivity.
  - exact prime_319279.
  - exact prime_456065899.
  - discriminate.
  - exists 28888126174458. reflexivity.
  - exists 20223770418. reflexivity.
  - reflexivity.
  - vm_compute. reflexivity.
  - vm_compute. reflexivity.
  - vm_compute. reflexivity.
Qed.

Lemma gap_composite :
  forallb (fun k => composite_by small_divisors (MOD + Z.of_nat k))
          (seq 1 24) = true.
Proof. vm_compute. reflexivity. Qed.

(** C10: BASE is 2^63 = 9223372036854775808, MOD is
    9223372036854775783, MOD is prime, and no number strictly between
    MOD and BASE is prime. *)
Theorem MOD_largest_prime_below_BASE :
  BASE = 2 ^ 63 /\ BASE = 9223372036854775808 /\
  MOD = 9223372036854775783 /\ Z.prime MOD /\ MOD < BASE /\
  forall n, MOD < n < BASE -> ~ Z.prime n.
Proof.
  repeat split; try reflexivity; try apply MOD_prime.
  intros n Hn. apply (composite_by_sound small_divisors).
  pose proof gap_composite as H. rewrite forallb_forall in H.
  specialize (H (Z.to_nat (n - MOD))).
  rewrite Z2Nat.id in H by lia.
  replace (MOD + (n - MOD)) with n in H by ring.
  apply H. apply in_seq.
  change BASE with 9223372036854775808 in Hn. unfold MOD in *. lia.
Qed.

Lemma MOD_largest_prime_below_BASE_witness :
  MOD < 9223372036854775801 < BASE /\ ~ Z.prime 9223372036854775801.
Proof.
  assert (H : MOD < 9223372036854775801 < BASE) by (split; reflexivity).
  split; [exact H|].
  exact (proj2 (proj2 (proj2 (proj2 (proj2 MOD_largest_prime_below_BASE))))
           9223372036854775801 H).
Defined.
End Constants.

(** * Further properties *)

(** ** [get_minutes] on arbitrary strings *)

Section GetMinutesGeneral.
Import Scan Occurrence.

Lemma pieces_none (t : string) :
  ~ occurs UDIMPL.delim t -> pieces t = [].
Proof.
  intros Hno. destruct (pieces t) as [|a l] eqn:E; [reflexivity|].
  apply pieces_occurrence in E as (b & Hs & _).
  destruct Hno. exists a, b. exact Hs.
Qed.

(** The first piece [pieces] finds is closed. *)
Lemma pieces_head_closed (s a : string) (l : list string) :
  pieces s = a :: l -> closed_piece a.
Proof.
  intros E (x & y & Hxy).
  pose proof (find_delim s 0) as Hf. rewrite E in Hf.
  destruct Hf as (Hfind & b & Hs & _).
  assert (Hocc : s = x ++ UDIMPL.delim ++ (y ++ " "%char :: b)).
  { rewrite Hs. change UDIMPL.delim with [","%char; " "%char] in *.
    change (a ++ [","%char; " "%char] ++ b)
      with (a ++ [","%char] ++ " "%char :: b).
    rewrite app_assoc, Hxy, <- !app_assoc. reflexivity. }
  assert (Hlen : size x + 2 + size y = size a + 1).
  { apply (f_equal size) in Hxy. rewrite !size_app in Hxy.
    change (size UDIMPL.delim) with 2 in Hxy.
    change (size [","%char]) with 1 in Hxy. lia. }
  pose proof (size_nonneg y).
  destruct (find_from_spec UDIMPL.delim s 0)
    as [[_ Hno] | (a0 & b0 & _ & Hf0 & Hmin)].
  - destruct (Hno _ _ Hocc).
  - apply Hmin in Hocc. lia.
Qed.

Lemma pieces_first (p rest : string) :
  closed_piece p -> pieces (p ++ UDIMPL.delim ++ rest) = p :: pieces rest.
Proof.
  induction p as [|c p IH]; intros Hc; [apply pieces_delim|].
  assert (Hc' : closed_piece p).
  { intros (x & y & H). apply Hc. exists (c :: x), y.
    cbn [app]. now rewrite H. }
  specialize (IH Hc'). destruct p as [|d r].
  - change (pieces (c :: ","%char :: " "%char :: rest) = [c] :: pieces rest).
    rewrite pieces_cons, is_delim_comma.
    change (","%char :: " "%char :: rest) with (UDIMPL.delim ++ rest).
    now rewrite pieces_delim.
  - change (pieces (c :: d :: r ++ UDIMPL.delim ++ rest)
            = (c :: d :: r) :: pieces rest).
    rewrite pieces_cons.
    destruct (is_delim c d) eqn:E.
    + exfalso. apply andb_true_iff in E as [Ec Ed].
      apply Ascii.eqb_eq in Ec, Ed. subst c d.
      apply Hc. exists [], (r ++ [","%char]). reflexivity.
    + change (d :: r ++ UDIMPL.delim ++ rest)
        with ((d :: r) ++ UDIMPL.delim ++ rest).
      now rewrite IH.
Qed.

Lemma pieces_assemble (ps : list string) (t : string) :
  Forall closed_piece ps -> ~ occurs UDIMPL.delim t ->
  pieces (assemble ps t) = ps.
Proof.
  intros Hps Ht. induction Hps as [|p ps Hp _ IH]; cbn [assemble fold_right].
  - now apply pieces_none.
  - fold (assemble ps t). now rewrite pieces_first, IH.
Qed.

Lemma pieces_decompose (n : nat) :
  forall s, length s = n -> size s < npos ->
    exists t, s = assemble (pieces s) t /\
              Forall closed_piece (pieces s) /\ ~ occurs UDIMPL.delim t.
Proof.
  induction n as [n IH] using lt_wf_ind. intros s Hlen Hsz.
  destruct (pieces s) as [|a l] eqn:E.
  - exists s. repeat split; [constructor|]. intros (a & b & Hs).
    pose proof (find_delim s 0) as Hf. rewrite E in Hf.
    apply (no_occurrence_by_find _ _ Hsz Hf a b Hs).
  - pose proof (pieces_head_closed _ _ _ E) as Ha.
    apply pieces_occurrence in E as (b & Hs & Hb).
    assert (Hlb : (length b < n)%nat).
    { rewrite <- Hlen, Hs, !length_app. simpl. lia. }
    assert (Hsb : size b < npos).
    { rewrite Hs, !size_app in Hsz. pose proof (size_nonneg a).
      pose proof (size_nonneg UDIMPL.delim). lia. }
    destruct (IH (length b) Hlb b eq_refl Hsb) as (t & Ht & Hall & Hno).
    exists t. rewrite Hb in Ht, Hall. repeat split; auto.
    cbn [assemble fold_right]. fold (assemble l t). now rewrite <- Ht.
Qed.

(** A piece that adds nothing can be dropped with its delimiter. *)
Lemma get_minutes_skip_piece (p rest : string) :
  closed_piece p -> piece_minutes p = 0 ->
  size (p ++ UDIMPL.delim ++ rest) < npos ->
  UDIMPL.get_minutes (p ++ UDIMPL.delim ++ rest) = UDIMPL.get_minutes rest.
Proof.
  intros Hp H0 Hsz.
  assert (size rest < npos).
  { rewrite !size_app in Hsz. pose proof (size_nonneg p).
    pose proof (size_nonneg UDIMPL.delim). lia. }
  rewrite !get_minutes_pieces by assumption.
  rewrite pieces_first by assumption.
  unfold sum_pieces at 1. cbn [fold_right]. now rewrite H0.
Qed.

Lemma no_comma_closed (p : string) : ~ In ","%char p -> closed_piece p.
Proof.
  intros Hc (x & y & H).
  assert (Hlen : size x + 2 + size y = size p + 1).
  { apply (f_equal size) in H. rewrite !size_app in H.
    change (size UDIMPL.delim) with 2 in H.
    change (size [","%char]) with 1 in H. lia. }
  pose proof (size_nonneg y).
  assert (Hx : (length x < length p)%nat) by (unfold size in *; lia).
  apply Hc. apply (f_equal (fun l => nth (length x) l " "%char)) in H.
  rewrite app_nth1 in H by exact Hx.
  rewrite app_nth2, Nat.sub_diag in H by lia. cbn in H.
  rewrite <- H. apply nth_In. exact Hx.
Qed.

Lemma no_space_cut (p : string) :
  ~ In " "%char p -> before_space p = p /\ after_space p = None.
Proof.
  induction p as [|c p IH]; intros Hc; [now split|].
  cbn [before_space after_space].
  destruct (Ascii.eqb_spec c " ") as [->|_]; [destruct Hc; now left|].
  destruct IH as [-> ->]; [intros H; apply Hc; now right | now split].
Qed.

Lemma piece_minutes_no_space (p : string) :
  ~ In " "%char p -> piece_minutes p = 0.
Proof.
  intros Hsp. destruct (no_space_cut p Hsp) as [Hb Ha].
  unfold piece_minutes, unit_text. rewrite Hb, Ha.
  destruct (eqb p (lit "days")) eqn:E1;
    [apply eqb_eq in E1; subst p; reflexivity|].
  destruct (eqb p (lit "hours")) eqn:E2;
    [apply eqb_eq in E2; subst p; reflexivity|].
  destruct (eqb p (lit "minutes")) eqn:E3;
    [apply eqb_eq in E3; subst p; reflexivity | reflexivity].
Qed.

Lemma eqb_neq (u v : string) : u <> v -> eqb u v = false.
Proof.
  intros H. destruct (eqb u v) eqn:E; [|reflexivity].
  apply eqb_eq in E. contradiction.
Qed.

Lemma piece_minutes_unknown_unit (n u : string) :
  ~ In " "%char n ->
  u <> lit "days" -> u <> lit "hours" -> u <> lit "minutes" ->
  piece_minutes (n ++ lit " " ++ u) = 0.
Proof.
  intros Hsp Hd Hh Hm. destruct (cut_at_space n u Hsp) as [Hb Ha].
  unfold piece_minutes, unit_text. rewrite Ha.
  now rewrite !eqb_neq by assumption.
Qed.

Lemma piece_minutes_non_numeric (n u : string) :
  ~ In " "%char n -> ~ Numeral.numeric_prefix n ->
  piece_minutes (n ++ lit " " ++ u) = 0.
Proof.
  intros Hsp Hn. destruct (cut_at_space n u Hsp) as [Hb Ha].
  unfold piece_minutes, unit_text. rewrite Hb, Ha.
  rewrite (str_to_int_default n Hn).
  destruct (eqb u (lit "days")); [reflexivity|].
  destruct (eqb u (lit "hours")); [reflexivity|].
  destruct (eqb u (lit "minutes")); reflexivity.
Qed.

Lemma no_delim_by_find (t : string) :
  size t < npos -> find_from UDIMPL.delim t 0 = npos ->
  ~ occurs UDIMPL.delim t.
Proof.
  intros Hsz Hf (a & b & H).
  apply (no_occurrence_by_find _ _ Hsz Hf a b H).
Qed.

(** X1: get_minutes never lets std::out_of_range escape and its loop
    ends: on every string it returns, and what it returns is an int. *)
Theorem get_minutes_never_throws (str : string) :
  size str < npos ->
  exists m, UDIMPL.get_minutes str = Returns m /\ Int.in_range m.
Proof.
  intros Hsz. exists (Int.wrap (sum_pieces (pieces str))).
  split; [now apply get_minutes_pieces | apply wrap_in_range].
Qed.

Lemma get_minutes_never_throws_witness :
  exists m, UDIMPL.get_minutes (lit ", , x days, 7") = Returns m /\
            Int.in_range m.
Proof.
  apply (get_minutes_never_throws (lit ", , x days, 7")). reflexivity.
Defined.

(** X2: every string is a sequence of pieces that each end at the next
    ", ", followed by a rest without ", "; whatever such splitting is
    taken, get_minutes returns the sum over the pieces of what each adds
    (the number atoi reads before the first space, times 1440, 60 or 1 when
    the text after that space is "days", "hours" or "minutes"), as an int,
    and the rest adds nothing. *)
Theorem get_minutes_decomposition (str : string) :
  size str < npos ->
  (exists ps t, str = assemble ps t /\ Forall closed_piece ps /\
                ~ occurs (lit ", ") t) /\
  (forall ps t, str = assemble ps t -> Forall closed_piece ps ->
                ~ occurs (lit ", ") t ->
                UDIMPL.get_minutes str = Returns (Int.wrap (sum_pieces ps))).
Proof.
  intros Hsz. change (lit ", ") with UDIMPL.delim. split.
  - destruct (pieces_decompose (length str) str eq_refl Hsz)
      as (t & Hs & Hall & Hno).
    exists (pieces str), t. auto.
  - intros ps t Hs Hall Hno. rewrite get_minutes_pieces by assumption.
    now rewrite Hs, pieces_assemble.
Qed.

Lemma get_minutes_decomposition_witness :
  UDIMPL.get_minutes (lit "5 days, x, 7 minutes") = Returns 7200.
Proof.
  assert (Hsz : size (lit "5 days, x, 7 minutes") < npos) by reflexivity.
  refine (proj2 (get_minutes_decomposition _ Hsz)
            [lit "5 days"; lit "x"] (lit "7 minutes") eq_refl _ _).
  - repeat constructor; apply no_comma_closed; intros H; cbn in H;
      repeat (destruct H as [H|H]; [discriminate|]); exact H.
  - apply no_delim_by_find; reflexivity.
Defined.

(** X3: what follows the last ", " is ignored: after a string that ends
    with ", ", text without ", " does not change the result. *)
Theorem get_minutes_ignores_tail (s t : string) :
  (exists p, s = p ++ lit ", ") -> ~ occurs (lit ", ") t ->
  size (s ++ t) < npos ->
  UDIMPL.get_minutes (s ++ t) = UDIMPL.get_minutes s.
Proof.
  change (lit ", ") with UDIMPL.delim. intros [p ->] Ht Hsz.
  assert (size (p ++ UDIMPL.delim) < npos).
  { rewrite size_app in Hsz. pose proof (size_nonneg t). lia. }
  rewrite !get_minutes_pieces by assumption.
  rewrite <- app_assoc. destruct (proj1 (pieces_app_delim p) t) as [-> _].
  now rewrite (pieces_none t Ht), app_nil_r.
Qed.

Lemma get_minutes_ignores_tail_witness :
  UDIMPL.get_minutes (lit "2 hours, " ++ lit "59 minutes")
  = UDIMPL.get_minutes (lit "2 hours, ").
Proof.
  apply (get_minutes_ignores_tail (lit "2 hours, ") (lit "59 minutes")).
  - exists (lit "2 hours"). reflexivity.
  - apply no_delim_by_find; reflexivity.
  - reflexivity.
Defined.

(** X4: the order of delimiter-terminated parts does not matter: for s1
    and s2 that both end with ", ", get_minutes gives the same result on
    s1 ++ s2 and on s2 ++ s1. *)
Theorem get_minutes_order_irrelevant (s1 s2 : string) :
  (exists p, s1 = p ++ lit ", ") -> (exists q, s2 = q ++ lit ", ") ->
  size (s1 ++ s2) < npos ->
  UDIMPL.get_minutes (s1 ++ s2) = UDIMPL.get_minutes (s2 ++ s1).
Proof.
  change (lit ", ") with UDIMPL.delim. intros [p ->] [q ->] Hsz.
  assert (size ((q ++ UDIMPL.delim) ++ p ++ UDIMPL.delim) < npos).
  { rewrite !size_app in *. lia. }
  rewrite !get_minutes_pieces by assumption.
  rewrite <- !app_assoc.
  destruct (proj1 (pieces_app_delim p) (q ++ UDIMPL.delim)) as [-> _].
  destruct (proj1 (pieces_app_delim q) (p ++ UDIMPL.delim)) as [-> _].
  rewrite !sum_pieces_app. do 2 f_equal. ring.
Qed.

Lemma get_minutes_order_irrelevant_witness :
  UDIMPL.get_minutes (lit "2 days, " ++ lit "3 hours, 1 minutes, ")
  = UDIMPL.get_minutes (lit "3 hours, 1 minutes, " ++ lit "2 days, ").
Proof.
  apply (get_minutes_order_irrelevant
           (lit "2 days, ") (lit "3 hours, 1 minutes, ")).
  - exists (lit "2 days"). reflexivity.
  - exists (lit "3 hours, 1 minutes"). reflexivity.
  - reflexivity.
Defined.

(** X5: units are matched exactly: a segment "<n> <u>" whose text u after
    the first space is none of "days", "hours", "minutes" adds nothing,
    whatever n is. *)
Theorem get_minutes_unknown_unit (n u rest : string) :
  ~ In " "%char n -> ~ In ","%char (n ++ lit " " ++ u) ->
  u <> lit "days" -> u <> lit "hours" -> u <> lit "minutes" ->
  size ((n ++ lit " " ++ u) ++ lit ", " ++ rest) < npos ->
  UDIMPL.get_minutes ((n ++ lit " " ++ u) ++ lit ", " ++ rest)
  = UDIMPL.get_minutes rest.
Proof.
  intros Hsp Hc Hd Hh Hm Hsz. apply get_minutes_skip_piece.
  - now apply no_comma_closed.
  - now apply piece_minutes_unknown_unit.
  - exact Hsz.
Qed.

Lemma get_minutes_unknown_unit_witness :
  UDIMPL.get_minutes ((lit "1" ++ lit " " ++ lit "day") ++ lit ", "
                      ++ lit "4 minutes, ")
  = UDIMPL.get_minutes (lit "4 minutes, ").
Proof.
  apply (get_minutes_unknown_unit (lit "1") (lit "day") (lit "4 minutes, "));
    try discriminate; try reflexivity;
    intros H; cbn in H; repeat (destruct H as [H|H]; [discriminate|]);
    exact H.
Defined.

(** X6: a segment without a space adds nothing: find returns npos, npos + 1
    wraps to 0, number and unit are both the whole segment, and no unit
    name starts with a digit. *)
Theorem get_minutes_piece_without_space (p rest : string) :
  ~ In " "%char p -> ~ In ","%char p ->
  size (p ++ lit ", " ++ rest) < npos ->
  UDIMPL.get_minutes (p ++ lit ", " ++ rest) = UDIMPL.get_minutes rest.
Proof.
  intros Hsp Hc Hsz. apply get_minutes_skip_piece.
  - now apply no_comma_closed.
  - now apply piece_minutes_no_space.
  - exact Hsz.
Qed.

Lemma get_minutes_piece_without_space_witness :
  UDIMPL.get_minutes (lit "minutes" ++ lit ", " ++ lit "4 minutes, ")
  = UDIMPL.get_minutes (lit "4 minutes, ").
Proof.
  apply (get_minutes_piece_without_space (lit "minutes") (lit "4 minutes, "));
    try reflexivity;
    intros H; cbn in H; repeat (destruct H as [H|H]; [discriminate|]);
    exact H.
Defined.

(** X7: a segment whose number does not start, after white space, with an
    optional sign and a digit counts as zero, whatever its unit. *)
Theorem get_minutes_non_numeric_amount (n u rest : string) :
  ~ In " "%char n -> ~ In ","%char (n ++ lit " " ++ u) ->
  ~ Numeral.numeric_prefix n ->
  size ((n ++ lit " " ++ u) ++ lit ", " ++ rest) < npos ->
  UDIMPL.get_minutes ((n ++ lit " " ++ u) ++ lit ", " ++ rest)
  = UDIMPL.get_minutes rest.
Proof.
  intros Hsp Hc Hn Hsz. apply get_minutes_skip_piece.
  - now apply no_comma_closed.
  - now apply piece_minutes_non_numeric.
  - exact Hsz.
Qed.

Lemma get_minutes_non_numeric_amount_witness :
  UDIMPL.get_minutes ((lit "abc" ++ lit " " ++ lit "days") ++ lit ", "
                      ++ lit "4 minutes, ")
  = UDIMPL.get_minutes (lit "4 minutes, ").
Proof.
  apply (get_minutes_non_numeric_amount
           (lit "abc") (lit "days") (lit "4 minutes, "));
    try exact no_numeric_prefix_abc; try reflexivity;
    intros H; cbn in H; repeat (destruct H as [H|H]; [discriminate|]);
    exact H.
Defined.

End GetMinutesGeneral.

(** ** [str_to_int] on text around a number *)

Section StrToIntGeneral.
Import Libc Numeral.

Lemma c_str_app (a b : string) :
  forallb (fun c => negb (Ascii.eqb c zero)) a = true ->
  c_str (a ++ b) = a ++ c_str b.
Proof.
  induction a as [|c a IH]; cbn [app c_str forallb]; [reflexivity|].
  rewrite andb_true_iff. intros [Hc Ha].
  destruct (Ascii.eqb c zero); [discriminate|]. now rewrite IH.
Qed.

Lemma spaces_no_nul (ws : string) :
  forallb isspace ws = true ->
  forallb (fun c => negb (Ascii.eqb c zero)) ws = true.
Proof.
  rewrite !forallb_forall. intros H c Hc. specialize (H c Hc).
  destruct (Ascii.eqb_spec c zero) as [->|]; [discriminate | reflexivity].
Qed.

Lemma numeral_no_nul (num : string) :
  is_numeral num = true ->
  forallb (fun c => negb (Ascii.eqb c zero)) num = true.
Proof.
  intros H. apply numeral_chars in H. rewrite forallb_forall in *.
  intros c Hc. specialize (H c Hc).
  destruct (Ascii.eqb_spec c zero) as [->|]; [discriminate | reflexivity].
Qed.

Lemma skip_space_app (ws x : string) :
  forallb isspace ws = true -> skip_space (ws ++ x) = skip_space x.
Proof.
  induction ws as [|c ws IH]; cbn [app forallb]; [reflexivity|].
  rewrite andb_true_iff. intros [Hc Hws]. cbn [skip_space].
  now rewrite Hc, IH.
Qed.

Lemma c_str_head (rest : string) :
  match rest with [] => True | c :: _ => isdigit c = false end ->
  match c_str rest with [] => True | c :: _ => isdigit c = false end.
Proof.
  destruct rest as [|c rest]; cbn [c_str]; [auto|].
  now destruct (Ascii.eqb c zero).
Qed.

Lemma read_digits_app (ds r : string) (acc : Z) :
  forallb isdigit ds = true ->
  read_digits acc (ds ++ r) = read_digits (acc * 10 ^ size ds + decimal ds) r.
Proof.
  revert acc. induction ds as [|d ds IH]; intros acc;
    cbn [app read_digits decimal forallb].
  - intros _. change (size []) with 0. f_equal. lia.
  - rewrite andb_true_iff. intros [Hd Hds]. rewrite Hd, IH by assumption.
    f_equal.
    rewrite size_cons, Z.pow_add_r by (pose proof (size_nonneg ds); lia).
    ring.
Qed.

Lemma read_digits_then_stop (ds r : string) :
  forallb isdigit ds = true ->
  match r with [] => True | c :: _ => isdigit c = false end ->
  read_digits 0 (ds ++ r) = decimal ds.
Proof.
  intros Hds Hr. rewrite read_digits_app by assumption.
  rewrite read_digits_stop by assumption. lia.
Qed.

(** X8: str_to_int reads a number out of its surroundings: white space
    before it is skipped and whatever follows its last digit is ignored,
    an embedded NUL and the text after it included. *)
Theorem str_to_int_prefix (ws num rest : string) :
  forallb isspace ws = true ->
  is_numeral num = true -> Int.in_range (value num) ->
  match rest with [] => True | c :: _ => isdigit c = false end ->
  UDIMPL.str_to_int (ws ++ num ++ rest) = value num.
Proof.
  intros Hws Hnum Hr Hrest. unfold UDIMPL.str_to_int, atoi, strtol.
  rewrite c_str_app by now apply spaces_no_nul.
  rewrite c_str_app by now apply numeral_no_nul.
  rewrite skip_space_app by assumption.
  apply c_str_head in Hrest. set (r := c_str rest) in *.
  destruct num as [|c ds]; [discriminate|].
  unfold is_numeral in Hnum. unfold value in *. cbn [app].
  destruct (Ascii.eqb_spec c "-") as [->|Hm]; cbn [orb] in Hnum.
  - apply andb_true_iff in Hnum as [_ Hds]. cbn [skip_space].
    change (isspace "-") with false. cbv iota.
    change (Ascii.eqb "-" "-") with true. cbv iota.
    rewrite read_digits_then_stop by assumption. now apply atoi_small.
  - destruct (Ascii.eqb_spec c "+") as [->|Hp].
    + apply andb_true_iff in Hnum as [_ Hds]. cbn [skip_space].
      change (isspace "+") with false. cbv iota.
      change (Ascii.eqb "+" "-") with false.
      change (Ascii.eqb "+" "+") with true. cbv iota.
      rewrite read_digits_then_stop by assumption. now apply atoi_small.
    + pose proof Hnum as Hall. cbn [forallb] in Hnum.
      apply andb_true_iff in Hnum as [Hc _].
      cbn [skip_space]. rewrite (isdigit_not_space c Hc).
      destruct (Ascii.eqb_spec c "-"); [contradiction|].
      destruct (Ascii.eqb_spec c "+"); [contradiction|].
      change (c :: ds ++ r) with ((c :: ds) ++ r).
      rewrite read_digits_then_stop by assumption. now apply atoi_small.
Qed.

Lemma str_to_int_prefix_witness :
  UDIMPL.str_to_int (lit "  " ++ lit "-42" ++ lit "nd street") = -42.
Proof.
  apply (str_to_int_prefix (lit "  ") (lit "-42") (lit "nd street")).
  - reflexivity.
  - reflexivity.
  - unfold Int.in_range. vm_compute. split; discriminate.
  - reflexivity.
Defined.

End StrToIntGeneral.

(** ** [is_contains] as an order on strings *)

Section IsContainsOrder.
Import Occurrence.

Lemma is_contains_occurs (str1 str2 : string) :
  size str1 < npos ->
  UDIMPL.is_contains str1 str2 = true <-> occurs str2 str1.
Proof.
  intros Hsz. unfold UDIMPL.is_contains, occurs. rewrite find_zero.
  destruct (find_from_spec str2 str1 0)
    as [[Hn Hno] | (a & b & Hs & Hf & _)].
  - rewrite Hn, Z.eqb_refl. cbn. split; [discriminate|].
    intros (a & b & H). destruct (Hno _ _ H).
  - split; [eauto|]. intros _. rewrite Hf.
    assert (size a <= size str1).
    { rewrite Hs, size_app. pose proof (size_nonneg (str2 ++ b)). lia. }
    destruct (Z.eqb_spec (0 + size a) npos); [lia | reflexivity].
Qed.

Lemma occurs_size (needle s : string) :
  occurs needle s -> size needle <= size s.
Proof.
  intros (a & b & ->). rewrite !size_app.
  pose proof (size_nonneg a). pose proof (size_nonneg b). lia.
Qed.

(** X9: a needle longer than the haystack is never found; in the empty
    string only the empty string is found. *)
Theorem is_contains_size (str1 str2 : string) :
  size str1 < npos ->
  (UDIMPL.is_contains str1 str2 = true -> size str2 <= size str1) /\
  (size str1 < size str2 -> UDIMPL.is_contains str1 str2 = false) /\
  (str1 = [] -> UDIMPL.is_contains str1 str2 = true -> str2 = []).
Proof.
  intros Hsz.
  assert (H : UDIMPL.is_contains str1 str2 = true -> size str2 <= size str1).
  { intros Hc. apply occurs_size. now apply is_contains_occurs. }
  split; [exact H|]. split.
  - intros Hlt. destruct (UDIMPL.is_contains str1 str2); [|reflexivity].
    specialize (H eq_refl). lia.
  - intros -> Hc. specialize (H Hc). destruct str2; [reflexivity|].
    rewrite size_cons in H. change (size []) with 0 in H.
    pose proof (size_nonneg str2). lia.
Qed.

Lemma is_contains_size_witness :
  UDIMPL.is_contains (lit "day") (lit "days") = false.
Proof.
  apply (proj1 (proj2 (is_contains_size (lit "day") (lit "days") eq_refl))).
  reflexivity.
Defined.

(** X10: is_contains is transitive: a part of a part is a part. *)
Theorem is_contains_transitive (str1 str2 str3 : string) :
  size str1 < npos ->
  UDIMPL.is_contains str1 str2 = true ->
  UDIMPL.is_contains str2 str3 = true ->
  UDIMPL.is_contains str1 str3 = true.
Proof.
  intros Hsz H12 H23.
  apply is_contains_occurs in H12; [|exact Hsz].
  assert (Hsz2 : size str2 < npos) by (apply occurs_size in H12; lia).
  apply is_contains_occurs in H23; [|exact Hsz2].
  apply is_contains_occurs; [exact Hsz|].
  destruct H12 as (a & b & ->), H23 as (c & d & ->).
  exists (a ++ c), (d ++ b). now rewrite <- !app_assoc.
Qed.

Lemma is_contains_transitive_witness :
  UDIMPL.is_contains (lit "3 hours, 30 minutes") (lit "our") = true.
Proof.
  apply (is_contains_transitive
           (lit "3 hours, 30 minutes") (lit "hours") (lit "our"));
    reflexivity.
Defined.

(** X11: is_contains is antisymmetric: two strings that contain each
    other are equal. *)
Theorem is_contains_antisymmetric (str1 str2 : string) :
  size str1 < npos ->
  UDIMPL.is_contains str1 str2 = true ->
  UDIMPL.is_contains str2 str1 = true ->
  str1 = str2.
Proof.
  intros Hsz H12 H21.
  apply is_contains_occurs in H12; [|exact Hsz].
  assert (Hsz2 : size str2 < npos) by (apply occurs_size in H12; lia).
  apply is_contains_occurs in H21; [|exact Hsz2].
  apply occurs_size in H21. destruct H12 as (a & b & Hs).
  assert (Hlen : length a = 0%nat /\ length b = 0%nat).
  { apply (f_equal size) in Hs. rewrite !size_app in Hs.
    unfold size in *. lia. }
  destruct Hlen as [Ha Hb]. apply length_zero_iff_nil in Ha, Hb. subst a b.
  cbn [app] in Hs. now rewrite app_nil_r in Hs.
Qed.

Lemma is_contains_antisymmetric_witness :
  lit "days" = [ "d"; "a"; "y"; "s" ]%char.
Proof.
  apply (is_contains_antisymmetric (lit "days") [ "d"; "a"; "y"; "s" ]%char);
    reflexivity.
Defined.

(** X12: is_contains survives growth of the haystack: what is found in a
    string is found in every string that contains it. *)
Theorem is_contains_extend (left str1 right str2 : string) :
  size (left ++ str1 ++ right) < npos ->
  UDIMPL.is_contains str1 str2 = true ->
  UDIMPL.is_contains (left ++ str1 ++ right) str2 = true.
Proof.
  intros Hsz H.
  assert (Hsz1 : size str1 < npos).
  { rewrite !size_app in Hsz. pose proof (size_nonneg left).
    pose proof (size_nonneg right). lia. }
  apply is_contains_occurs in H; [|exact Hsz1].
  apply is_contains_occurs; [exact Hsz|].
  destruct H as (a & b & ->).
  exists (left ++ a), (b ++ right). now rewrite <- !app_assoc.
Qed.

Lemma is_contains_extend_witness :
  UDIMPL.is_contains (lit "2 days, " ++ lit "3 hours" ++ lit ", ")
                     (lit "hour") = true.
Proof.
  apply (is_contains_extend
           (lit "2 days, ") (lit "3 hours") (lit ", ") (lit "hour"));
    reflexivity.
Defined.

End IsContainsOrder.

(** ** [add_3] as a map on [int] *)

Section AddThree.

(** X13: add_3 is a permutation of the ints: different ints have
    different results, and every int is the result for some int. *)
Theorem add_3_bijective :
  (forall a b, Int.in_range a -> Int.in_range b ->
               TestFixture.add_3 a = TestFixture.add_3 b -> a = b) /\
  (forall r, Int.in_range r ->
             exists n, Int.in_range n /\ TestFixture.add_3 n = r).
Proof.
  unfold TestFixture.add_3, Int.add. split.
  - intros a b Ha Hb H.
    destruct (wrap_congruent (a + 3)) as [k Hk].
    destruct (wrap_congruent (b + 3)) as [k' Hk'].
    rewrite Hk, Hk' in H.
    unfold Int.in_range, Int.INT_MIN, Int.INT_MAX, Int.modulus, Int.bits in *.
    lia.
  - intros r Hr. exists (Int.wrap (r - 3)). split; [apply wrap_in_range|].
    rewrite wrap_add_l. replace (r - 3 + 3) with r by ring.
    now apply wrap_small.
Qed.

Lemma add_3_bijective_witness :
  exists n, Int.in_range n /\ TestFixture.add_3 n = -2147483648.
Proof.
  apply (proj2 add_3_bijective (-2147483648)).
  unfold Int.in_range. vm_compute. split; discriminate.
Defined.

End AddThree.

(** ** [get_minutes] on durations written with separators *)

Section GetMinutesJoined.
Import Scan Occurrence Duration.

Lemma occurs_delim_comma (t : string) :
  occurs UDIMPL.delim t -> In ","%char t.
Proof.
  intros (a & b & ->). apply in_or_app. right. now left.
Qed.

Lemma joined_assemble (l : list segment) (sg : segment) :
  joined (l ++ [sg]) = assemble (map segment_text l) (segment_text sg).
Proof.
  induction l as [|x l IH]; [reflexivity|].
  cbn [app map assemble fold_right]. fold (assemble (map segment_text l)
                                             (segment_text sg)).
  rewrite <- IH. destruct l; reflexivity.
Qed.

(** X14: on segments joined by ", " the last segment is not counted: the
    result is the total of the segments before it, as an int. *)
Theorem get_minutes_joined_drops_last (l : list segment) (sg : segment) :
  Forall well_formed l -> well_formed sg ->
  size (joined (l ++ [sg])) < npos ->
  UDIMPL.get_minutes (joined (l ++ [sg]))
  = Returns (Int.wrap (total_minutes l)).
Proof.
  intros Hl Hsg Hsz. rewrite get_minutes_pieces by assumption.
  rewrite joined_assemble, pieces_assemble.
  - now rewrite sum_pieces_segments.
  - rewrite Forall_map. eapply Forall_impl; [|exact Hl].
    intros x Hx. now apply no_comma_closed, segment_text_no_comma.
  - intros H. apply occurs_delim_comma in H.
    now apply (segment_text_no_comma sg).
Qed.

Lemma get_minutes_joined_drops_last_witness :
  UDIMPL.get_minutes (lit "2 days, 3 hours, 30 minutes") = Returns 3060.
Proof.
  apply (get_minutes_joined_drops_last
           [(lit "2", days); (lit "3", hours)] (lit "30", minutes)).
  - repeat constructor; unfold Int.in_range; vm_compute; discriminate.
  - repeat constructor; unfold Int.in_range; vm_compute; discriminate.
  - reflexivity.
Defined.

End GetMinutesJoined.
